(** * Event authorisation rules of [matrixeventauth/eventauth.go]

    A shallow embedding of the Go package [matrixeventauth]: the
    computation of the state needed to authenticate a batch of events
    ([StateNeededForAuth], [unique]) and the per-type authorisation
    rules behind [Allowed].

    Go values are modelled as follows.
    - [string] is [string]; [int64] levels are [Z] (they are only compared).
    - [*string] is [option string]; dereferencing [nil] panics.
    - [json.RawMessage] is the JSON value it holds ([json]).
    - a function returning [error] returns [result unit]: [Ok tt] is a
      [nil] error, [Err e] a returned error, [Panic p] a run-time panic.
    - [map[string]int64] is an association list with unique keys. *)

From Stdlib Require Import String Ascii ZArith List Lia Bool Permutation Sorted.
From Stdlib Require OrderedTypeEx.
Import ListNotations.

Open Scope string_scope.
Open Scope Z_scope.

(** ** Errors, panics and the result monad *)

(** An argument of [fmt.Sprintf]: a string (verb [%q]) or an integer
    (verb [%d]). *)
Inductive fmt_arg : Type :=
| ArgS (s : string)
| ArgD (z : Z).

(** A message is kept as the format string and the arguments handed to
    [fmt.Sprintf]; the rendering of the verbs is the library's. *)
Record message : Type := Sprintf { format : string; args : list fmt_arg }.

(** Go's [error]: a [*NotAllowed] built by [errorf], or whatever error the
    [AuthEvents] implementation returned. *)
Inductive error : Type :=
| NotAllowed (Message : message)
| OracleError (e : string).

Inductive panic_value : Type :=
| IndexOutOfRange
| NilDereference
| PanicError (m : message).

Inductive result (A : Type) : Type :=
| Ok (a : A)
| Err (e : error)
| Panic (p : panic_value).

Arguments Ok {A} a.
Arguments Err {A} e.
Arguments Panic {A} p.

Definition bind {A B : Type} (c : result A) (k : A -> result B) : result B :=
  match c with
  | Ok a => k a
  | Err e => Err e
  | Panic p => Panic p
  end.

Notation "x <- c ;; k" := (bind c (fun x => k))
  (at level 61, c at next level, right associativity).
Notation "c ;;; k" := (bind c (fun _ => k))
  (at level 61, right associativity).

Definition errorf {A : Type} (fmt : string) (a : list fmt_arg) : result A :=
  Err (NotAllowed (Sprintf fmt a)).

(** An event is admitted when the rule returns a [nil] error, denied when
    it returns a [*NotAllowed]. *)
Definition admitted (r : result unit) : Prop := r = Ok tt.
Definition denied (r : result unit) : Prop := exists m, r = Err (NotAllowed m).

(** ** JSON values and events *)

#[local] Set Warnings "-register-all".

Inductive json : Type :=
| JNull
| JBool (b : bool)
| JNumber (n : Z)
| JString (s : string)
| JArray (items : list json)
| JObject (fields : list (string * json)).

Record Event : Type := {
  RoomID : string;
  EventID : string;
  Sender : string;
  Type_ : string;
  StateKey : option string;
  Content : json;
  PrevEvents : list (list json);
  Redacts : string
}.

(** The fields of [StateNeeded] live in a module of that name, as the
    methods of [AuthEvents] below share their names. *)
Module StateNeeded.
Record t : Type := {
  Create : bool;
  JoinRules : bool;
  PowerLevels : bool;
  Member : list string;
  ThirdPartyInvite : list string
}.
End StateNeeded.

(** Modelled from the spec: the value bound to a key of a content object,
    for the content parsers that are not in the source file; the key is
    compared exactly and the last binding counts. *)
Fixpoint obj_get (k : string) (fields : list (string * json)) : option json :=
  match fields with
  | [] => None
  | (k', v) :: rest =>
      match obj_get k rest with
      | Some v' => Some v'
      | None => if String.eqb k k' then Some v else None
      end
  end.

(** [json.Unmarshal] into a [string] initialised to the empty string. *)
Definition unmarshal_string (j : json) : option string :=
  match j with
  | JString s => Some s
  | JNull => Some ""
  | _ => None
  end.

(** Modelled from the spec: a field of a content object, an absent key
    read as [null]. *)
Definition struct_field (k : string) (fields : list (string * json)) : json :=
  match obj_get k fields with
  | Some v => v
  | None => JNull
  end.

(** ** [unique] over a sorted string slice *)

Definition len {A : Type} (l : list A) : Z := Z.of_nat (length l).

(** [x[i]]: panics outside [0 <= i < len(x)]. *)
Definition index {A : Type} (x : list A) (i : Z) : result A :=
  if (i <? 0) then Panic IndexOutOfRange
  else match nth_error x (Z.to_nat i) with
       | Some a => Ok a
       | None => Panic IndexOutOfRange
       end.

Fixpoint update {A : Type} (x : list A) (n : nat) (a : A) : list A :=
  match x, n with
  | [], _ => []
  | _ :: t, O => a :: t
  | h :: t, S n' => h :: update t n' a
  end.

(** [sort.StringSlice.Less]: [x[i] < x[j]]. *)
Definition Less (x : list string) (i j : Z) : result bool :=
  a <- index x i ;;
  b <- index x j ;;
  Ok (String.ltb a b).

(** [sort.StringSlice.Swap]: [x[i], x[j] = x[j], x[i]]. *)
Definition Swap (x : list string) (i j : Z) : result (list string) :=
  a <- index x i ;;
  b <- index x j ;;
  Ok (update (update x (Z.to_nat i) b) (Z.to_nat j) a).

(** The loop [for i := 1; i < length; i++] of [unique], with [n] iterations
    left to run. *)
Fixpoint unique_loop (n : nat) (i j : Z) (data : list string)
  : result (Z * list string) :=
  match n with
  | O => Ok (j, data)
  | S n' =>
      lt <- Less data (i - 1) i ;;
      if lt then
        data' <- Swap data (i - 1) j ;;
        unique_loop n' (i + 1) (j + 1) data'
      else unique_loop n' (i + 1) j data
  end.

(** [unique] returns the new length together with the slice it permuted in
    place. *)
Definition unique (data : list string) : result (Z * list string) :=
  let length := len data in
  r <- unique_loop (Z.to_nat (length - 1)) 1 0 data ;;
  let '(j, data1) := r in
  data2 <- Swap data1 (length - 1) j ;;
  Ok (j + 1, data2).

(** [sort.Strings]: the slice in increasing byte-wise order. *)
Fixpoint insert_sorted (s : string) (l : list string) : list string :=
  match l with
  | [] => [s]
  | h :: t => if String.leb s h then s :: l else h :: insert_sorted s t
  end.

Definition sort_Strings (l : list string) : list string :=
  fold_right insert_sorted [] l.

(** ** [StateNeededForAuth] *)

(** [encoding/json] matches the key of an object with the name of a struct
    field up to case folding. For a name of ASCII letters that is: the
    ASCII letters without regard to case and, the only characters outside
    ASCII that fold onto ASCII letters, the long s (U+017F, the bytes 197
    191) for [s] and the Kelvin sign (U+212A, the bytes 226 132 170) for
    [k]. *)
Definition ascii_fold (c : ascii) : ascii :=
  let n := nat_of_ascii c in
  if (97 <=? n)%nat && (n <=? 122)%nat then ascii_of_nat (n - 32) else c.

Fixpoint key_matches (name key : string) {struct name} : bool :=
  match name with
  | EmptyString =>
      match key with
      | EmptyString => true
      | String _ _ => false
      end
  | String n name' =>
      match key with
      | EmptyString => false
      | String c key1 =>
          if Ascii.eqb (ascii_fold c) (ascii_fold n) then key_matches name' key1
          else
            match key1 with
            | String c1 key2 =>
                if Ascii.eqb (ascii_fold n) "S" && Ascii.eqb c "197" && Ascii.eqb c1 "191"
                then key_matches name' key2
                else
                  match key2 with
                  | String c2 key3 =>
                      if Ascii.eqb (ascii_fold n) "K" && Ascii.eqb c "226" &&
                         Ascii.eqb c1 "132" && Ascii.eqb c2 "170"
                      then key_matches name' key3
                      else false
                  | EmptyString => false
                  end
            | EmptyString => false
            end
      end
  end.

(** [json.Unmarshal] into the struct of [needsThirdpartyInvite], level by
    level. The bindings of an object are decoded in their order; every
    binding whose key matches the field is decoded into the same field, so
    that repeated keys add up; [null] leaves the field as it is; a value of
    another type than the field is an error, with which [json.Unmarshal]
    returns once the rest is decoded. [token] is the value of
    [content.ThirdPartyInvite.Signed.Token] so far, [None] an error. *)
Fixpoint decode_signed (fields : list (string * json)) (token : string)
  : option string :=
  match fields with
  | [] => Some token
  | (key, value) :: rest =>
      if key_matches "token" key then
        match value with
        | JString s => decode_signed rest s
        | JNull => decode_signed rest token
        | _ => None
        end
      else decode_signed rest token
  end.

Fixpoint decode_third_party_invite (fields : list (string * json)) (token : string)
  : option string :=
  match fields with
  | [] => Some token
  | (key, value) :: rest =>
      if key_matches "signed" key then
        match value with
        | JObject signed =>
            match decode_signed signed token with
            | Some token' => decode_third_party_invite rest token'
            | None => None
            end
        | JNull => decode_third_party_invite rest token
        | _ => None
        end
      else decode_third_party_invite rest token
  end.

Fixpoint decode_content (fields : list (string * json)) (token : string)
  : option string :=
  match fields with
  | [] => Some token
  | (key, value) :: rest =>
      if key_matches "third_party_invite" key then
        match value with
        | JObject invite =>
            match decode_third_party_invite invite token with
            | Some token' => decode_content rest token'
            | None => None
            end
        | JNull => decode_content rest token
        | _ => None
        end
      else decode_content rest token
  end.

(** [json.Unmarshal(event.Content, &content)]: the token decoded, or [None]
    for an error. *)
Definition unmarshal_token (content : json) : option string :=
  match content with
  | JObject fields => decode_content fields ""
  | JNull => Some ""
  | _ => None
  end.

Definition needsThirdpartyInvite (thirdpartyinvites : list string) (event : Event)
  : list string :=
  match unmarshal_token (Content event) with
  | None => thirdpartyinvites
  | Some token =>
      if String.eqb token "" then thirdpartyinvites
      else thirdpartyinvites ++ [token]
  end.

(** [*p] for a [*string]. *)
Definition deref (p : option string) : result string :=
  match p with
  | Some s => Ok s
  | None => Panic NilDereference
  end.

(** The accumulators of the loop over the batch: the three flags, [members]
    and [thirdpartyinvites]. *)
Record needed_acc : Type := {
  acc_create : bool;
  acc_joinrules : bool;
  acc_powerlevels : bool;
  members : list string;
  thirdpartyinvites : list string
}.

(** The operand [event.StateKey] of the [append] for member events. It is a
    [*string] where a [string] is needed, so the line does not type-check
    as it stands: for a state key that is not nil the string appended can
    only be the key; what happens for a nil state key the source does not
    say, and it is the parameter [nilKey]: the strings appended then (none,
    if the key is left out), or a panic (if it is dereferenced). *)
Definition state_key_operand (nilKey : result (list string))
           (stateKey : option string) : result (list string) :=
  match stateKey with
  | Some key => Ok [key]
  | None => nilKey
  end.

Definition needed_step (nilKey : result (list string))
           (acc : needed_acc) (event : Event) : result needed_acc :=
  if String.eqb (Type_ event) "m.room.create" then Ok acc
  else if String.eqb (Type_ event) "m.room.aliases" then
    Ok {| acc_create := true;
          acc_joinrules := acc_joinrules acc;
          acc_powerlevels := acc_powerlevels acc;
          members := members acc;
          thirdpartyinvites := thirdpartyinvites acc |}
  else if String.eqb (Type_ event) "m.room.member" then
    keys <- state_key_operand nilKey (StateKey event) ;;
    Ok {| acc_create := true;
          acc_joinrules := true;
          acc_powerlevels := true;
          members := members acc ++ Sender event :: keys;
          thirdpartyinvites := needsThirdpartyInvite (thirdpartyinvites acc) event |}
  else
    Ok {| acc_create := true;
          acc_joinrules := acc_joinrules acc;
          acc_powerlevels := true;
          members := members acc ++ [Sender event];
          thirdpartyinvites := thirdpartyinvites acc |}.

Fixpoint needed_loop (nilKey : result (list string))
         (acc : needed_acc) (events : list Event) : result needed_acc :=
  match events with
  | [] => Ok acc
  | event :: rest =>
      acc' <- needed_step nilKey acc event ;;
      needed_loop nilKey acc' rest
  end.

(** [s[:n]]. *)
Definition slice_to {A : Type} (s : list A) (n : Z) : list A :=
  firstn (Z.to_nat n) s.

Definition StateNeededForAuth (nilKey : result (list string))
           (events : list Event) : result StateNeeded.t :=
  acc <- needed_loop nilKey {| acc_create := false; acc_joinrules := false;
                        acc_powerlevels := false; members := [];
                        thirdpartyinvites := [] |} events ;;
  um <- unique (sort_Strings (members acc)) ;;
  ut <- unique (sort_Strings (thirdpartyinvites acc)) ;;
  Ok {| StateNeeded.Create := acc_create acc;
        StateNeeded.JoinRules := acc_joinrules acc;
        StateNeeded.PowerLevels := acc_powerlevels acc;
        StateNeeded.Member := slice_to (snd um) (fst um);
        StateNeeded.ThirdPartyInvite := slice_to (snd ut) (fst ut) |}.

(** ** The auth-state oracle *)

(** The interface [AuthEvents]: each method returns an event pointer
    and an error, a [nil] event meaning that the state entry is absent. *)
Module AuthEvents.
Record t : Type := {
  Create : result (option Event);
  JoinRules : result (option Event);
  PowerLevels : result (option Event);
  Member : string -> result (option Event);
  ThirdPartyInvite : string -> result (option Event)
}.
End AuthEvents.

(** ** Identifiers *)

(** Modelled from the spec: [domainFromID] is not in the source file. The
    server-domain of an identifier is the substring after its first [:];
    an identifier without [:] has none, which is reported as a denial. *)
Fixpoint after_colon (id : string) : option string :=
  match id with
  | EmptyString => None
  | String c rest => if Ascii.eqb c ":" then Some rest else after_colon rest
  end.

(** Modelled from the spec: [domainFromID] returns the server-domain, or
    an error for an identifier that has none. *)
Definition domainFromID (id : string) : result string :=
  match after_colon id with
  | Some domain => Ok domain
  | None => errorf "invalid ID: %q" [ArgS id]
  end.

(** [strings.IndexByte(s, c) != -1]. *)
Fixpoint has_byte (c : ascii) (s : string) : bool :=
  match s with
  | EmptyString => false
  | String c' rest => Ascii.eqb c' c || has_byte c rest
  end.

(** [userID[0] == '@' && strings.IndexByte(userID, ':') != -1]; the index
    expression panics on the empty string. *)
Definition isValidUserID (userID : string) : result bool :=
  match userID with
  | EmptyString => Panic IndexOutOfRange
  | String c _ => Ok (Ascii.eqb c "@" && has_byte ":" userID)
  end.

(** ** Content views

    The content types and their [load] and [parse] methods are declared
    outside the source file; they are modelled from section 3 of the
    specification. *)

(** Modelled from the spec: a string field of a content object, for the
    content parsers that are not in the source file. *)
Definition opt_string (k : string) (fields : list (string * json)) : option string :=
  unmarshal_string (struct_field k fields).

(** Modelled from the spec: levels are signed 64-bit integers. *)
Definition int64_ok (n : Z) : bool := (- 2 ^ 63 <=? n) && (n <? 2 ^ 63).

(** Modelled from the spec: an integer level of the power-levels content,
    with its default for an absent key. *)
Definition opt_level (k : string) (default : Z) (fields : list (string * json))
  : option Z :=
  match obj_get k fields with
  | None | Some JNull => Some default
  | Some (JNumber n) => if int64_ok n then Some n else None
  | Some _ => None
  end.

(** [map[string]int64] as an association list with unique keys. *)
Fixpoint map_get (k : string) (m : list (string * Z)) : option Z :=
  match m with
  | [] => None
  | (k', v) :: rest => if String.eqb k k' then Some v else map_get k rest
  end.

Fixpoint map_set (k : string) (v : Z) (m : list (string * Z)) : list (string * Z) :=
  match m with
  | [] => [(k, v)]
  | (k', v') :: rest =>
      if String.eqb k k' then (k, v) :: rest else (k', v') :: map_set k v rest
  end.

Definition map_keys (m : list (string * Z)) : list string := map fst m.

(** Modelled from the spec: the [users] and [events] maps of the
    power-levels content, every value an integer level. *)
Fixpoint levels_of (acc : list (string * Z)) (fields : list (string * json))
  : option (list (string * Z)) :=
  match fields with
  | [] => Some acc
  | (k, JNumber n) :: rest =>
      if int64_ok n then levels_of (map_set k n acc) rest else None
  | _ :: _ => None
  end.

(** Modelled from the spec: the map under key [k], empty when absent. *)
Definition opt_levels (k : string) (fields : list (string * json))
  : option (list (string * Z)) :=
  match obj_get k fields with
  | None | Some JNull => Some []
  | Some (JObject f) => levels_of [] f
  | Some _ => None
  end.

Module createContent.
(** Modelled from the spec: the type [createContent] is not in the source
    file; it has the creator, the federation policy and the ID of the
    create event. *)
Record t : Type := {
  Creator : string;
  Federate : bool;
  eventID : string
}.

(** Modelled from the spec: the create content has a [creator], the
    policy [m.federate] (default true) and the ID of the create event. *)
Definition parse (event : Event) : result t :=
  match Content event with
  | JObject fields =>
      match opt_string "creator" fields, obj_get "m.federate" fields with
      | Some creator, None | Some creator, Some JNull =>
          Ok {| Creator := creator; Federate := true; eventID := EventID event |}
      | Some creator, Some (JBool b) =>
          Ok {| Creator := creator; Federate := b; eventID := EventID event |}
      | _, _ => errorf "unparsable create event content" []
      end
  | _ => errorf "unparsable create event content" []
  end.

(** Modelled from the spec: the create entry is fetched from the oracle;
    oracle errors are passed on and a missing create event is a denial. *)
Definition load (authEvents : AuthEvents.t) : result t :=
  createEvent <- AuthEvents.Create authEvents ;;
  match createEvent with
  | None => errorf "missing create event" []
  | Some event => parse event
  end.

(** Modelled from the spec: with [m.federate = false] only the domain of
    the creator may act. *)
Definition domainAllowed (c : t) (domain : string) : result unit :=
  if Federate c then Ok tt
  else
    creatorDomain <- domainFromID (Creator c) ;;
    if String.eqb domain creatorDomain then Ok tt
    else errorf "room is unfederatable" [].

(** Modelled from the spec: an identifier satisfies the policy when its
    server-domain does. *)
Definition idAllowed (c : t) (id : string) : result unit :=
  domain <- domainFromID id ;;
  domainAllowed c domain.
End createContent.

Module memberContent.
(** Modelled from the spec: the type [memberContent] is not in the source
    file; it has the membership and the optional third-party invite. *)
Record t : Type := {
  Membership : string;
  ThirdPartyInvite : option json
}.

(** Modelled from the spec: the five membership tokens. *)
Definition valid_membership (s : string) : bool :=
  existsb (String.eqb s) ["join"; "leave"; "invite"; "ban"; "knock"].

(** Modelled from the spec: [membership] is one of the five tokens, any
    other content fails to parse; [third_party_invite] is optional. *)
Definition parse (event : Event) : result t :=
  match Content event with
  | JObject fields =>
      match obj_get "membership" fields with
      | Some (JString s) =>
          if valid_membership s then
            Ok {| Membership := s;
                  ThirdPartyInvite :=
                    match obj_get "third_party_invite" fields with
                    | None | Some JNull => None
                    | Some v => Some v
                    end |}
          else errorf "unparsable member event content" []
      | _ => errorf "unparsable member event content" []
      end
  | _ => errorf "unparsable member event content" []
  end.

(** Modelled from the spec: an absent member entry is treated as
    [leave]. *)
Definition load (authEvents : AuthEvents.t) (userID : string) : result t :=
  memberEvent <- AuthEvents.Member authEvents userID ;;
  match memberEvent with
  | None => Ok {| Membership := "leave"; ThirdPartyInvite := None |}
  | Some event => parse event
  end.
End memberContent.

Module joinRuleContent.
(** Modelled from the spec: the type [joinRuleContent] is not in the source
    file; it has the join rule. *)
Record t : Type := { JoinRule : string }.

(** Modelled from the spec: the four join rules. *)
Definition valid_join_rule (s : string) : bool :=
  existsb (String.eqb s) ["public"; "invite"; "knock"; "private"].

(** Modelled from the spec: [join_rule] is one of four tokens. *)
Definition parse (event : Event) : result t :=
  match Content event with
  | JObject fields =>
      match obj_get "join_rule" fields with
      | Some (JString s) =>
          if valid_join_rule s then Ok {| JoinRule := s |}
          else errorf "unparsable join_rules event content" []
      | _ => errorf "unparsable join_rules event content" []
      end
  | _ => errorf "unparsable join_rules event content" []
  end.

(** Modelled from the spec: no join-rules event means [invite]. *)
Definition load (authEvents : AuthEvents.t) : result t :=
  joinRulesEvent <- AuthEvents.JoinRules authEvents ;;
  match joinRulesEvent with
  | None => Ok {| JoinRule := "invite" |}
  | Some event => parse event
  end.
End joinRuleContent.

Module powerLevelContent.
(** Modelled from the spec: the type [powerLevelContent] is not in the
    source file; it has the seven scalar levels and the maps of user and
    event levels. *)
Record t : Type := {
  banLevel : Z;
  inviteLevel : Z;
  kickLevel : Z;
  redactLevel : Z;
  stateDefaultLevel : Z;
  eventDefaultLevel : Z;
  userDefaultLevel : Z;
  userLevels : list (string * Z);
  eventLevels : list (string * Z)
}.

(** Modelled from the spec: every level is optional, with the defaults
    of the table of section 3. *)
Definition parse (event : Event) : result t :=
  match Content event with
  | JObject f =>
      match opt_level "ban" 50 f, opt_level "invite" 50 f,
            opt_level "kick" 50 f, opt_level "redact" 50 f,
            opt_level "state_default" 50 f, opt_level "events_default" 0 f,
            opt_level "users_default" 0 f,
            opt_levels "users" f, opt_levels "events" f with
      | Some ban, Some invite, Some kick, Some redact, Some stateDefault,
        Some eventDefault, Some userDefault, Some users, Some events =>
          Ok {| banLevel := ban; inviteLevel := invite; kickLevel := kick;
                redactLevel := redact; stateDefaultLevel := stateDefault;
                eventDefaultLevel := eventDefault;
                userDefaultLevel := userDefault;
                userLevels := users; eventLevels := events |}
      | _, _, _, _, _, _, _, _, _ =>
          errorf "unparsable power_levels event content" []
      end
  | _ => errorf "unparsable power_levels event content" []
  end.

(** Modelled from the spec: without a power-levels event all defaults
    apply and the room creator has level 100. *)
Definition load (authEvents : AuthEvents.t) (creator : string) : result t :=
  powerLevelsEvent <- AuthEvents.PowerLevels authEvents ;;
  match powerLevelsEvent with
  | None =>
      Ok {| banLevel := 50; inviteLevel := 50; kickLevel := 50;
            redactLevel := 50; stateDefaultLevel := 50;
            eventDefaultLevel := 0; userDefaultLevel := 0;
            userLevels := [(creator, 100)]; eventLevels := [] |}
  | Some event => parse event
  end.

(** Modelled from the spec: [users[userID]], else [users_default]. *)
Definition userLevel (c : t) (userID : string) : Z :=
  match map_get userID (userLevels c) with
  | Some level => level
  | None => userDefaultLevel c
  end.

(** Modelled from the spec: [events[type]], else [state_default] for a
    state event and [events_default] otherwise. *)
Definition eventLevel (c : t) (eventType : string) (stateKey : option string) : Z :=
  match map_get eventType (eventLevels c) with
  | Some level => level
  | None =>
      match stateKey with
      | Some _ => stateDefaultLevel c
      | None => eventDefaultLevel c
      end
  end.
End powerLevelContent.

(** ** The create and alias rules *)

Definition createEventAllowed (event : Event) (authEvents : AuthEvents.t)
  : result unit :=
  roomIDDomain <- domainFromID (RoomID event) ;;
  senderDomain <- domainFromID (Sender event) ;;
  if negb (String.eqb senderDomain roomIDDomain) then
    errorf "create event room ID domain does not match sender: %q != %q"
      [ArgS roomIDDomain; ArgS senderDomain]
  else if len (PrevEvents event) >? 0 then
    errorf "create event must be the first event in the room" []
  else Ok tt.

(** The source calls the loader of the create content [createEvent] here. *)
Definition aliasEventAllowed (event : Event) (authEvents : AuthEvents.t)
  : result unit :=
  senderDomain <- domainFromID (Sender event) ;;
  create <- createContent.load authEvents ;;
  createContent.domainAllowed create senderDomain ;;;
  match StateKey event with
  | None => errorf "alias must be a state event" []
  | Some stateKey =>
      if negb (String.eqb senderDomain stateKey) then
        errorf "alias state_key does not match sender domain, %q != %q"
          [ArgS senderDomain; ArgS stateKey]
      else Ok tt
  end.

(** ** The membership transition machine *)

Import memberContent joinRuleContent createContent powerLevelContent.

Record membershipAllower : Type := {
  targetID : string;
  senderID : string;
  senderMember : memberContent.t;
  oldMember : memberContent.t;
  newMember : memberContent.t;
  joinRule : joinRuleContent.t;
  create : createContent.t;
  powerLevels : powerLevelContent.t
}.

Definition membershipAllower_setup (event : Event) (authEvents : AuthEvents.t)
  : result membershipAllower :=
  targetID <- deref (StateKey event) ;;
  let senderID := Sender event in
  senderMember <- memberContent.load authEvents senderID ;;
  oldMember <- memberContent.load authEvents targetID ;;
  newMember <- memberContent.parse event ;;
  create <- createContent.load authEvents ;;
  powerLevels <- powerLevelContent.load authEvents (Creator create) ;;
  joinRule <- joinRuleContent.load authEvents ;;
  Ok {| targetID := targetID; senderID := senderID;
        senderMember := senderMember; oldMember := oldMember;
        newMember := newMember; joinRule := joinRule;
        create := create; powerLevels := powerLevels |}.

(** [membershipFailed] explains why the membership change was refused. *)
Definition membershipFailed (m : membershipAllower) : result unit :=
  if String.eqb (senderID m) (targetID m) then
    errorf "%q is not allowed to change their membership from %q to %q"
      [ArgS (targetID m); ArgS (Membership (oldMember m));
       ArgS (Membership (newMember m))]
  else if negb (String.eqb (Membership (senderMember m)) "join") then
    errorf "sender %q is not in the room" [ArgS (senderID m)]
  else
    errorf "%q is not allowed to change the membership of %q from %q to %q"
      [ArgS (senderID m); ArgS (targetID m); ArgS (Membership (oldMember m));
       ArgS (Membership (newMember m))].

(** In the two machines each [if] block of the source either returns
    [nil] or falls through to the blocks after it; [after_join],
    [after_ban] and [after_leave] are what follows the block named. *)
Definition membershipAllowedSelf (m : membershipAllower) : result unit :=
  let old := Membership (oldMember m) in
  let new := Membership (newMember m) in
  let rule := JoinRule (joinRule m) in
  let after_join :=
    if String.eqb new "leave" then
      if String.eqb old "join" then Ok tt
      else if String.eqb old "invite" then Ok tt
      else membershipFailed m
    else membershipFailed m
  in
  if String.eqb new "join" then
    if String.eqb old "leave" && String.eqb rule "public" then Ok tt
    else if String.eqb old "invite" && String.eqb rule "public" then Ok tt
    else if String.eqb old "invite" && String.eqb rule "invite" then Ok tt
    else if String.eqb old "join" then Ok tt
    else after_join
  else after_join.

Definition membershipAllowedOther (m : membershipAllower) : result unit :=
  let senderLevel := userLevel (powerLevels m) (senderID m) in
  let targetLevel := userLevel (powerLevels m) (targetID m) in
  let old := Membership (oldMember m) in
  let new := Membership (newMember m) in
  let after_leave :=
    if String.eqb new "invite" then
      if String.eqb old "leave" && (senderLevel >=? inviteLevel (powerLevels m))
      then Ok tt
      else if String.eqb old "invite" && (senderLevel >=? inviteLevel (powerLevels m))
      then Ok tt
      else membershipFailed m
    else membershipFailed m
  in
  let after_ban :=
    if String.eqb new "leave" then
      if String.eqb old "ban" && (senderLevel >=? banLevel (powerLevels m))
      then Ok tt
      else if negb (String.eqb old "ban") &&
              (senderLevel >=? kickLevel (powerLevels m)) &&
              (senderLevel >? targetLevel)
      then Ok tt
      else after_leave
    else after_leave
  in
  if String.eqb (Membership (senderMember m)) "join" then
    if String.eqb new "ban" then
      if (senderLevel >=? banLevel (powerLevels m)) && (senderLevel >? targetLevel)
      then Ok tt
      else after_ban
    else after_ban
  else membershipFailed m.

Definition membershipAllowed (m : membershipAllower) : result unit :=
  if String.eqb (targetID m) (senderID m) then membershipAllowedSelf m
  else membershipAllowedOther m.

(** ** The member rule *)

(** The part of [memberEventAllowed] after the block for the first join:
    the usual authentication process that block falls through to. *)
Definition memberEventAllowed_usual
           (event : Event) (authEvents : AuthEvents.t)
           (create : createContent.t) (newMember : memberContent.t)
           (targetUserID : string) : result unit :=
  createContent.idAllowed create targetUserID ;;;
  if String.eqb (Membership newMember) "invite" &&
     (match memberContent.ThirdPartyInvite newMember with
      | Some _ => true
      | None => false
      end)
  then Panic (PanicError (Sprintf "ThirdPartyInvite not implemented" []))
  else
    m <- membershipAllower_setup event authEvents ;;
    membershipAllowed m.

Definition memberEventAllowed (event : Event) (authEvents : AuthEvents.t)
  : result unit :=
  create <- createContent.load authEvents ;;
  createContent.idAllowed create (Sender event) ;;;
  newMember <- memberContent.parse event ;;
  match StateKey event with
  | None => errorf "member must be a state event" []
  | Some targetUserID =>
      if (len (PrevEvents event) =? 1) &&
         String.eqb (Membership newMember) "join" &&
         String.eqb (Creator create) targetUserID &&
         String.eqb (Sender event) targetUserID
      then
        prev <- index (PrevEvents event) 0 ;;
        if negb (len prev =? 2) then errorf "unparsable prev event" []
        else
          raw <- index prev 0 ;;
          match unmarshal_string raw with
          | None => errorf "unparsable prev event" []
          | Some prevEventID =>
              if String.eqb prevEventID (eventID create) then Ok tt
              else memberEventAllowed_usual event authEvents create newMember targetUserID
          end
      else memberEventAllowed_usual event authEvents create newMember targetUserID
  end.

(** ** Common checks, and the power-levels, redact and default rules *)

(** The fields [create], [member] and [powerlevels] of [eventAllower]. *)
Record eventAllower : Type := {
  ea_create : createContent.t;
  ea_member : memberContent.t;
  ea_powerlevels : powerLevelContent.t
}.

Definition eventAllower_setup (authEvents : AuthEvents.t) (senderID : string)
  : result eventAllower :=
  create <- createContent.load authEvents ;;
  member <- memberContent.load authEvents senderID ;;
  powerLevels <- powerLevelContent.load authEvents (Creator create) ;;
  Ok {| ea_create := create; ea_member := member; ea_powerlevels := powerLevels |}.

(** The common checks; the callers name them [commonChecks]. *)
Definition defaultAllowed (e : eventAllower) (event : Event) : result unit :=
  createContent.idAllowed (ea_create e) (Sender event) ;;;
  if negb (String.eqb (Membership (ea_member e)) "join") then
    errorf "sender %q not in room" [ArgS (Sender event)]
  else
    let senderLevel := userLevel (ea_powerlevels e) (Sender event) in
    let eventLevel := eventLevel (ea_powerlevels e) (Type_ event) (StateKey event) in
    if senderLevel <? eventLevel then
      errorf "sender %q is not allowed to send event. %d < %d"
        [ArgS (Sender event); ArgD senderLevel; ArgD eventLevel]
    else
      match StateKey event with
      | Some (String c rest) =>
          if Ascii.eqb c "@" && negb (String.eqb (String c rest) (Sender event)) then
            errorf "sender %q is not allowed to modify the state belonging to %q"
              [ArgS (Sender event); ArgS (String c rest)]
          else Ok tt
      | _ => Ok tt
      end.

Definition defaultEventAllowed (event : Event) (authEvents : AuthEvents.t)
  : result unit :=
  allower <- eventAllower_setup authEvents (Sender event) ;;
  defaultAllowed allower event.

Definition redactEventAllowed (event : Event) (authEvents : AuthEvents.t)
  : result unit :=
  allower <- eventAllower_setup authEvents (Sender event) ;;
  defaultAllowed allower event ;;;
  senderDomain <- domainFromID (Sender event) ;;
  redactDomain <- domainFromID (Redacts event) ;;
  if String.eqb senderDomain redactDomain then Ok tt
  else
    let senderLevel := userLevel (ea_powerlevels allower) (Sender event) in
    let redactLevel := redactLevel (ea_powerlevels allower) in
    if senderLevel >=? redactLevel then Ok tt
    else
      errorf "%q is not allowed to react message from %q. %d < %d"
        [ArgS (Sender event); ArgS redactDomain; ArgD senderLevel; ArgD redactLevel].

Definition levelPair : Type := (Z * Z)%type.

(** [for userID := range userLevels { if !isValidUserID(userID) {...} }],
    over the keys in the order of the association list. *)
Fixpoint checkUserIDs (userIDs : list string) : result unit :=
  match userIDs with
  | [] => Ok tt
  | userID :: rest =>
      valid <- isValidUserID userID ;;
      if negb valid then errorf "Not a valid user ID: %q" [ArgS userID]
      else checkUserIDs rest
  end.

(** [for k := range m { v := e }]: the short declaration makes [v] a
    variable of the loop body, so a variable of that name in the enclosing
    scope is after the loop what it was before it. *)
Definition range_declaring {K V S : Type} (keys : list K) (e : K -> V) (outer : S) : S :=
  fold_left (fun s k => let _v := e k in s) keys outer.

(** The first checking loop: [senderLevel < old || senderLevel < new]. *)
Fixpoint checkLevels (senderLevel : Z) (checks : list levelPair) : result unit :=
  match checks with
  | [] => Ok tt
  | (old, new) :: rest =>
      if negb (old =? new) && ((senderLevel <? old) || (senderLevel <? new)) then
        errorf "sender with level %d is not allowed to change level from %d to %d"
          [ArgD senderLevel; ArgD old; ArgD new]
      else checkLevels senderLevel rest
  end.

(** The last checking loop: [senderLevel <= old || senderLevel < new]. *)
Fixpoint checkUserLevels (senderLevel : Z) (checks : list levelPair) : result unit :=
  match checks with
  | [] => Ok tt
  | (old, new) :: rest =>
      if negb (old =? new) && ((senderLevel <=? old) || (senderLevel <? new)) then
        errorf "sender with level %d is not allowed to change user level from %d to %d"
          [ArgD senderLevel; ArgD old; ArgD new]
      else checkUserLevels senderLevel rest
  end.

(** The six scalar pairs [levelChecks] is initialised with. *)
Definition scalarChecks (old new : powerLevelContent.t) : list levelPair :=
  [ (banLevel old, banLevel new);
    (inviteLevel old, inviteLevel new);
    (kickLevel old, kickLevel new);
    (redactLevel old, redactLevel new);
    (stateDefaultLevel old, stateDefaultLevel new);
    (eventDefaultLevel old, eventDefaultLevel new) ].

(** The slice the last loop of [powerLevelEventAllowed] ranges over. The
    appends inside the four [range] loops are short declarations, and the
    last loop ranges over [levelChecks], not [userLevelChecks]. *)
Definition lastLoopChecks (old new : powerLevelContent.t) : list levelPair :=
  let levelChecks := scalarChecks old new in
  let levelChecks :=
    range_declaring (map_keys (eventLevels new))
      (fun eventType =>
         (levelChecks ++
            [(eventLevel old eventType None, eventLevel new eventType None)])%list)
      levelChecks in
  let levelChecks :=
    range_declaring (map_keys (eventLevels old))
      (fun eventType =>
         (levelChecks ++
            [(eventLevel old eventType None, eventLevel new eventType None)])%list)
      levelChecks in
  levelChecks.

(** Modelled from the spec: [senderLevel], which [powerLevelEventAllowed]
    uses without declaring it, is the sender's effective level under the
    old power levels. *)
Definition senderLevelUnder (oldPowerLevels : powerLevelContent.t) (event : Event) : Z :=
  userLevel oldPowerLevels (Sender event).

(** [allower.setup(authEvents)] is given the sender, as in the other
    rules. *)
Definition powerLevelEventAllowed (event : Event) (authEvents : AuthEvents.t)
  : result unit :=
  allower <- eventAllower_setup authEvents (Sender event) ;;
  defaultAllowed allower event ;;;
  let oldPowerLevels := ea_powerlevels allower in
  newPowerLevels <- powerLevelContent.parse event ;;
  checkUserIDs (map_keys (userLevels newPowerLevels)) ;;;
  let senderLevel := senderLevelUnder oldPowerLevels event in
  let levelChecks := lastLoopChecks oldPowerLevels newPowerLevels in
  checkLevels senderLevel levelChecks ;;;
  let userLevelChecks :=
    [(userDefaultLevel oldPowerLevels, userDefaultLevel newPowerLevels)] in
  let userLevelChecks :=
    range_declaring (map_keys (userLevels newPowerLevels))
      (fun userID =>
         (levelChecks ++
            [(userLevel oldPowerLevels userID, userLevel newPowerLevels userID)])%list)
      userLevelChecks in
  let userLevelChecks :=
    range_declaring (map_keys (userLevels newPowerLevels))
      (fun userID =>
         (levelChecks ++
            [(userLevel oldPowerLevels userID, userLevel newPowerLevels userID)])%list)
      userLevelChecks in
  checkUserLevels senderLevel levelChecks.

(** ** The dispatcher *)

(** The case for power levels calls the rule under the name
    [powerLevelsEventAllowed]. *)
Definition Allowed (event : Event) (authEvents : AuthEvents.t) : result unit :=
  if String.eqb (Type_ event) "m.room.create" then createEventAllowed event authEvents
  else if String.eqb (Type_ event) "m.room.alias" then aliasEventAllowed event authEvents
  else if String.eqb (Type_ event) "m.room.member" then memberEventAllowed event authEvents
  else if String.eqb (Type_ event) "m.room.power_levels" then powerLevelEventAllowed event authEvents
  else if String.eqb (Type_ event) "m.room.redact" then redactEventAllowed event authEvents
  else defaultEventAllowed event authEvents.

(** ** The transition tables of the specification *)

(** The self-transition table of section 4.6. *)
Definition selfTransitionTable (old new rule : string) : Prop :=
  (old = "leave" /\ new = "join" /\ rule = "public") \/
  (old = "invite" /\ new = "join" /\ (rule = "public" \/ rule = "invite")) \/
  (old = "join" /\ new = "join") \/
  (old = "join" /\ new = "leave") \/
  (old = "invite" /\ new = "leave").

(** The other-transition table, as [membershipAllowedOther] has it: [S] and
    [T] are the effective levels of the sender and of the target. *)
Definition otherTransitionTable (m : membershipAllower) : Prop :=
  let S := userLevel (powerLevels m) (senderID m) in
  let T := userLevel (powerLevels m) (targetID m) in
  let old := Membership (oldMember m) in
  let new := Membership (newMember m) in
  Membership (senderMember m) = "join" /\
  ((new = "ban" /\ S >= banLevel (powerLevels m) /\ S > T) \/
   (new = "leave" /\ old = "ban" /\ S >= banLevel (powerLevels m)) \/
   (new = "leave" /\ old <> "ban" /\ S >= kickLevel (powerLevels m) /\ S > T) \/
   (new = "invite" /\ (old = "leave" \/ old = "invite") /\
    S >= inviteLevel (powerLevels m))).

(** The creator's first join: one prior-event reference, a pair whose
    first component decodes to the ID of the create event; new membership
    [join]; sender, target and creator the same user. *)
Definition bootstrapJoin (event : Event) (create : createContent.t) : Prop :=
  exists prev hashes newMember,
    PrevEvents event = [[prev; hashes]] /\
    unmarshal_string prev = Some (eventID create) /\
    memberContent.parse event = Ok newMember /\
    Membership newMember = "join" /\
    StateKey event = Some (Sender event) /\
    Creator create = Sender event.

(** ** A concrete room *)

Definition alice : string := "@alice:a".
Definition bob : string := "@bob:b".

Definition create_event : Event :=
  {| RoomID := "!r:a"; EventID := "$create:a"; Sender := alice;
     Type_ := "m.room.create"; StateKey := Some "";
     Content := JObject [("creator", JString alice)];
     PrevEvents := []; Redacts := "" |}.

Definition member_event (sender target membership : string)
           (prev : list (list json)) : Event :=
  {| RoomID := "!r:a"; EventID := "$member:a"; Sender := sender;
     Type_ := "m.room.member"; StateKey := Some target;
     Content := JObject [("membership", JString membership)];
     PrevEvents := prev; Redacts := "" |}.

Definition power_levels_event (sender : string) (content : list (string * json))
  : Event :=
  {| RoomID := "!r:a"; EventID := "$levels:a"; Sender := sender;
     Type_ := "m.room.power_levels"; StateKey := Some "";
     Content := JObject content;
     PrevEvents := [[JString "$create:a"; JObject []]]; Redacts := "" |}.

Definition join_rules_event (rule : string) : Event :=
  {| RoomID := "!r:a"; EventID := "$rules:a"; Sender := alice;
     Type_ := "m.room.join_rules"; StateKey := Some "";
     Content := JObject [("join_rule", JString rule)];
     PrevEvents := []; Redacts := "" |}.

(** An oracle over a fixed state: the create event, optional join rules
    and power levels, and the users that are joined. *)
Definition room (rules levels : option Event) (joined : list string) : AuthEvents.t :=
  {| AuthEvents.Create := Ok (Some create_event);
     AuthEvents.JoinRules := Ok rules;
     AuthEvents.PowerLevels := Ok levels;
     AuthEvents.Member := fun userID =>
       if existsb (String.eqb userID) joined
       then Ok (Some (member_event userID userID "join" []))
       else Ok None;
     AuthEvents.ThirdPartyInvite := fun _ => Ok None |}.

(** Power levels in which [alice] has level 50 and all else is default. *)
Definition alice50 : Event :=
  power_levels_event alice [("users", JObject [(alice, JNumber 50)])].

Definition room50 : AuthEvents.t := room None (Some alice50) [alice].

Definition levels50 : powerLevelContent.t :=
  {| banLevel := 50; inviteLevel := 50; kickLevel := 50; redactLevel := 50;
     stateDefaultLevel := 50; eventDefaultLevel := 0; userDefaultLevel := 0;
     userLevels := [(alice, 50)]; eventLevels := [] |}.



(** [alice], at level 50, lowers [ban] from 50 to 40. *)
Definition lower_ban : Event :=
  power_levels_event alice
    [("ban", JNumber 40); ("users", JObject [(alice, JNumber 50)])].

(** [alice], at level 50, raises the level of [m.room.name] events
    from the default 0 to 100. *)
Definition raise_name_level : Event :=
  power_levels_event alice
    [("users", JObject [(alice, JNumber 50)]);
     ("events", JObject [("m.room.name", JNumber 100)])].

(** Power levels whose [users] map has the empty string as a key. *)
Definition empty_user_key : Event :=
  power_levels_event alice
    [("users", JObject [(alice, JNumber 50); ("", JNumber 0)])].

(** The first join of the creator, after the event [prev]. *)
Definition creator_join (prev : string) : Event :=
  member_event alice alice "join" [[JString prev; JObject []]].

(** The room right after its creation: only the create event is known. *)
Definition new_room : AuthEvents.t := room None None [].

(** [alice] invites [bob] with a third-party invite. *)
Definition third_party_invite : Event :=
  {| RoomID := "!r:a"; EventID := "$invite:a"; Sender := alice;
     Type_ := "m.room.member"; StateKey := Some bob;
     Content :=
       JObject [("membership", JString "invite");
                ("third_party_invite",
                 JObject [("signed", JObject [("token", JString "token")])])];
     PrevEvents := []; Redacts := "" |}.

(** An alias event of the server [c], sent by a user who is not in the
    room. *)
Definition aliases_event : Event :=
  {| RoomID := "!r:a"; EventID := "$aliases:c"; Sender := "@carol:c";
     Type_ := "m.room.aliases"; StateKey := Some "c";
     Content := JObject [("aliases", JArray [JString "#room:c"])];
     PrevEvents := []; Redacts := "" |}.

(** A transition-machine state: [alice] is joined with level 100, [bob]
    has left, and [alice] sends a member event for [bob]. *)
Definition alice_moves_bob (membership : string) : membershipAllower :=
  {| targetID := bob; senderID := alice;
     senderMember := {| Membership := "join"; memberContent.ThirdPartyInvite := None |};
     oldMember := {| Membership := "leave"; memberContent.ThirdPartyInvite := None |};
     newMember := {| Membership := membership; memberContent.ThirdPartyInvite := None |};
     joinRule := {| JoinRule := "public" |};
     create := {| Creator := alice; Federate := true; eventID := "$create:a" |};
     powerLevels :=
       {| banLevel := 50; inviteLevel := 50; kickLevel := 50; redactLevel := 50;
          stateDefaultLevel := 50; eventDefaultLevel := 0; userDefaultLevel := 0;
          userLevels := [(alice, 100)]; eventLevels := [] |} |}.

(** [bob] joins a public room he was never in. *)
Definition bob_joins : Event := member_event bob bob "join" [].

Definition public_room : AuthEvents.t :=
  room (Some (join_rules_event "public")) None [alice].

Definition bob_joining : membershipAllower :=
  {| targetID := bob; senderID := bob;
     senderMember := {| Membership := "leave"; memberContent.ThirdPartyInvite := None |};
     oldMember := {| Membership := "leave"; memberContent.ThirdPartyInvite := None |};
     newMember := {| Membership := "join"; memberContent.ThirdPartyInvite := None |};
     joinRule := {| JoinRule := "public" |};
     create := {| Creator := alice; Federate := true; eventID := "$create:a" |};
     powerLevels :=
       {| banLevel := 50; inviteLevel := 50; kickLevel := 50; redactLevel := 50;
          stateDefaultLevel := 50; eventDefaultLevel := 0; userDefaultLevel := 0;
          userLevels := [(alice, 100)]; eventLevels := [] |} |}.

(** What [eventAllower_setup] loads for [alice] in [room50]. *)
Definition allower50 : eventAllower :=
  {| ea_create := {| Creator := alice; Federate := true; eventID := "$create:a" |};
     ea_member := {| Membership := "join"; memberContent.ThirdPartyInvite := None |};
     ea_powerlevels := levels50 |}.

(** A message event of [alice]. *)
Definition message_event : Event :=
  {| RoomID := "!r:a"; EventID := "$message:a"; Sender := alice;
     Type_ := "m.room.message"; StateKey := None;
     Content := JObject [("body", JString "hello")];
     PrevEvents := []; Redacts := "" |}.

(** ** What [unique] keeps *)

(** The elements of a slice that are less than their successor. *)
Fixpoint ascents (l : list string) : list string :=
  match l with
  | [] => []
  | x :: rest =>
      match rest with
      | [] => []
      | y :: _ => if String.ltb x y then x :: ascents rest else ascents rest
      end
  end.

(** A slice without the elements that are not less than their successor:
    of a run of equal neighbours the last one stays. *)
Fixpoint dedup_adjacent (l : list string) : list string :=
  match l with
  | [] => []
  | x :: rest =>
      match rest with
      | [] => [x]
      | y :: _ => if String.ltb x y then x :: dedup_adjacent rest else dedup_adjacent rest
      end
  end.

(** The byte-wise order of strings, as [sort.Strings] and
    [sort.StringSlice.Less] use it. *)
Definition str_le (a b : string) : Prop := String.leb a b = true.
Definition str_lt (a b : string) : Prop := String.ltb a b = true.

(** ** What a batch asks for *)

(** The member state keys [StateNeededForAuth] collects for one event. *)
Definition member_keys (nilKey : result (list string)) (event : Event) : list string :=
  if String.eqb (Type_ event) "m.room.create" then []
  else if String.eqb (Type_ event) "m.room.aliases" then []
  else if String.eqb (Type_ event) "m.room.member" then
    Sender event ::
    match state_key_operand nilKey (StateKey event) with
    | Ok keys => keys
    | _ => []
    end
  else [Sender event].

(** The third-party-invite token it collects for one event, if any. *)
Definition invite_tokens (event : Event) : list string :=
  if String.eqb (Type_ event) "m.room.member" then needsThirdpartyInvite [] event
  else [].

(** The loop gets past the event: it is no member event, or its state key
    gives strings to append. *)
Definition state_key_appends (nilKey : result (list string)) (event : Event) : bool :=
  negb (String.eqb (Type_ event) "m.room.member") ||
  match state_key_operand nilKey (StateKey event) with
  | Ok _ => true
  | _ => false
  end.

(** What the loop ends with on an event it does not get past. *)
Definition failure_of {A : Type} (nilKey : result (list string)) : result A :=
  match nilKey with
  | Ok _ => Panic NilDereference
  | Err e => Err e
  | Panic p => Panic p
  end.

Definition needs_create (event : Event) : bool :=
  negb (String.eqb (Type_ event) "m.room.create").

Definition needs_join_rules (event : Event) : bool :=
  String.eqb (Type_ event) "m.room.member".

Definition needs_power_levels (event : Event) : bool :=
  negb (String.eqb (Type_ event) "m.room.create") &&
  negb (String.eqb (Type_ event) "m.room.aliases").

(** A batch with one member event that carries a third-party-invite token,
    and a message. *)
Definition invite_batch : list Event := [message_event; third_party_invite].

(** ** Oracles *)

(** A computation that does not panic. *)
Definition returns {A : Type} (r : result A) : Prop := forall p, r <> Panic p.

(** An oracle none of whose lookups panics. *)
Definition oracle_returns (authEvents : AuthEvents.t) : Prop :=
  returns (AuthEvents.Create authEvents) /\
  returns (AuthEvents.JoinRules authEvents) /\
  returns (AuthEvents.PowerLevels authEvents) /\
  forall userID, returns (AuthEvents.Member authEvents userID).

(** Two oracles that answer alike on the state one event asks for, as
    [StateNeededForAuth] collects it. *)
Definition same_needed_state (nilKey : result (list string))
           (event : Event) (a b : AuthEvents.t) : Prop :=
  (needs_create event = true -> AuthEvents.Create a = AuthEvents.Create b) /\
  (needs_join_rules event = true -> AuthEvents.JoinRules a = AuthEvents.JoinRules b) /\
  (needs_power_levels event = true ->
   AuthEvents.PowerLevels a = AuthEvents.PowerLevels b) /\
  (forall userID, In userID (member_keys nilKey event) ->
                  AuthEvents.Member a userID = AuthEvents.Member b userID).

(** An oracle whose lookup of the create event fails. *)
Definition broken_store : AuthEvents.t :=
  {| AuthEvents.Create := Err (OracleError "database is closed");
     AuthEvents.JoinRules := Ok None;
     AuthEvents.PowerLevels := Ok None;
     AuthEvents.Member := fun _ => Ok None;
     AuthEvents.ThirdPartyInvite := fun _ => Ok None |}.

(** The state key names a user: it is not empty and starts with [@]. *)
Definition names_user (stateKey : option string) : option string :=
  match stateKey with
  | Some (String c rest) => if Ascii.eqb c "@" then Some (String c rest) else None
  | _ => None
  end.

(** [alice] redacts an event of the server [b]. *)
Definition redact_event : Event :=
  {| RoomID := "!r:a"; EventID := "$redact:a"; Sender := alice;
     Type_ := "m.room.redact"; StateKey := None;
     Content := JObject []; PrevEvents := []; Redacts := "$spam:b" |}.

(** A transition-machine state: [alice], joined with level 100, sends a
    member event for [bob], whose membership is [old]. *)
Definition alice_changes_bob (old new : string) : membershipAllower :=
  {| targetID := bob; senderID := alice;
     senderMember := {| Membership := "join"; memberContent.ThirdPartyInvite := None |};
     oldMember := {| Membership := old; memberContent.ThirdPartyInvite := None |};
     newMember := {| Membership := new; memberContent.ThirdPartyInvite := None |};
     joinRule := {| JoinRule := "invite" |};
     create := {| Creator := alice; Federate := true; eventID := "$create:a" |};
     powerLevels :=
       {| banLevel := 50; inviteLevel := 50; kickLevel := 50; redactLevel := 50;
          stateDefaultLevel := 50; eventDefaultLevel := 0; userDefaultLevel := 0;
          userLevels := [(alice, 100)]; eventLevels := [] |} |}.

(** The same with the roles exchanged: [bob], who has left and has level
    0, sends a member event for [alice]. *)
Definition bob_changes_alice (new : string) : membershipAllower :=
  {| targetID := alice; senderID := bob;
     senderMember := {| Membership := "leave"; memberContent.ThirdPartyInvite := None |};
     oldMember := {| Membership := "join"; memberContent.ThirdPartyInvite := None |};
     newMember := {| Membership := new; memberContent.ThirdPartyInvite := None |};
     joinRule := {| JoinRule := "invite" |};
     create := {| Creator := alice; Federate := true; eventID := "$create:a" |};
     powerLevels :=
       {| banLevel := 50; inviteLevel := 50; kickLevel := 50; redactLevel := 50;
          stateDefaultLevel := 50; eventDefaultLevel := 0; userDefaultLevel := 0;
          userLevels := [(alice, 100)]; eventLevels := [] |} |}.

(** [bob], banned, sends a member event for himself. *)
Definition banned_bob (new : string) : membershipAllower :=
  {| targetID := bob; senderID := bob;
     senderMember := {| Membership := "ban"; memberContent.ThirdPartyInvite := None |};
     oldMember := {| Membership := "ban"; memberContent.ThirdPartyInvite := None |};
     newMember := {| Membership := new; memberContent.ThirdPartyInvite := None |};
     joinRule := {| JoinRule := "public" |};
     create := {| Creator := alice; Federate := true; eventID := "$create:a" |};
     powerLevels :=
       {| banLevel := 50; inviteLevel := 50; kickLevel := 50; redactLevel := 50;
          stateDefaultLevel := 50; eventDefaultLevel := 0; userDefaultLevel := 0;
          userLevels := [(alice, 100)]; eventLevels := [] |} |}.

(** What [powerLevelContent.parse] makes of [raise_name_level]. *)
Definition levels_name_raised : powerLevelContent.t :=
  {| banLevel := 50; inviteLevel := 50; kickLevel := 50; redactLevel := 50;
     stateDefaultLevel := 50; eventDefaultLevel := 0; userDefaultLevel := 0;
     userLevels := [(alice, 50)]; eventLevels := [("m.room.name", 100)] |}.

(** An alias event of the server [c], under the type the dispatcher has a
    case for. *)
Definition alias_event : Event :=
  {| RoomID := "!r:a"; EventID := "$alias:c"; Sender := "@carol:c";
     Type_ := "m.room.alias"; StateKey := Some "c";
     Content := JObject [("aliases", JArray [JString "#room:c"])];
     PrevEvents := []; Redacts := "" |}.

(** A member event without state key. *)
Definition member_without_key : Event :=
  {| RoomID := "!r:a"; EventID := "$member:a"; Sender := alice;
     Type_ := "m.room.member"; StateKey := None;
     Content := JObject [("membership", JString "join")];
     PrevEvents := []; Redacts := "" |}.

(** The creator's join after the create event, with a reference of three
    components. *)
Definition creator_join_long_reference : Event :=
  member_event alice alice "join"
    [[JString "$create:a"; JObject []; JString "extra"]].

(** A room that does not federate: [alice] of the server [a] created it
    with [m.federate] false and is joined. *)
Definition local_create_event : Event :=
  {| RoomID := "!r:a"; EventID := "$create:a"; Sender := alice;
     Type_ := "m.room.create"; StateKey := Some "";
     Content := JObject [("creator", JString alice); ("m.federate", JBool false)];
     PrevEvents := []; Redacts := "" |}.

Definition local_room : AuthEvents.t :=
  {| AuthEvents.Create := Ok (Some local_create_event);
     AuthEvents.JoinRules := Ok None;
     AuthEvents.PowerLevels := Ok None;
     AuthEvents.Member := fun userID =>
       if String.eqb userID alice
       then Ok (Some (member_event alice alice "join" []))
       else Ok None;
     AuthEvents.ThirdPartyInvite := fun _ => Ok None |}.

(** [alice] bans [bob], a user of the server [b]. *)
Definition alice_bans_bob : Event := member_event alice bob "ban" [].

(** What [membershipAllower_setup] loads for that event in [local_room]. *)
Definition alice_bans_bob_locally : membershipAllower :=
  {| targetID := bob; senderID := alice;
     senderMember := {| Membership := "join"; memberContent.ThirdPartyInvite := None |};
     oldMember := {| Membership := "leave"; memberContent.ThirdPartyInvite := None |};
     newMember := {| Membership := "ban"; memberContent.ThirdPartyInvite := None |};
     joinRule := {| JoinRule := "invite" |};
     create := {| Creator := alice; Federate := false; eventID := "$create:a" |};
     powerLevels :=
       {| banLevel := 50; inviteLevel := 50; kickLevel := 50; redactLevel := 50;
          stateDefaultLevel := 50; eventDefaultLevel := 0; userDefaultLevel := 0;
          userLevels := [(alice, 100)]; eventLevels := [] |} |}.

(** ** Proof automation *)

Ltac case_string_eqb :=
  match goal with
  | |- context [String.eqb ?a ?b] => destruct (String.eqb_spec a b)
  | H : context [String.eqb ?a ?b] |- _ => destruct (String.eqb_spec a b)
  end.

Ltac case_level_cmp :=
  match goal with
  | |- context [Z.geb ?a ?b] => destruct (Z.geb_spec a b)
  | |- context [Z.gtb ?a ?b] => destruct (Z.gtb_spec a b)
  | |- context [Z.ltb ?a ?b] => destruct (Z.ltb_spec a b)
  | |- context [Z.leb ?a ?b] => destruct (Z.leb_spec a b)
  | |- context [Z.eqb ?a ?b] => destruct (Z.eqb_spec a b)
  end.

(** ** The transition machine *)

Lemma denied_not_admitted (r : result unit) : denied r -> ~ admitted r.
Proof. intros [msg ->] H. discriminate H. Qed.

Lemma membershipFailed_denied (m : membershipAllower) : denied (membershipFailed m).
Proof.
  unfold membershipFailed, denied, errorf.
  repeat case_string_eqb; simpl; eauto.
Qed.

(** [membershipAllowedSelf] returns [nil] on the rows of the table and the
    error of [membershipFailed] off them. *)
Lemma membershipAllowedSelf_cases (m : membershipAllower) :
  let table := selfTransitionTable (Membership (oldMember m))
                 (Membership (newMember m)) (JoinRule (joinRule m)) in
  (table /\ membershipAllowedSelf m = Ok tt) \/
  (~ table /\ membershipAllowedSelf m = membershipFailed m).
Proof.
  unfold membershipAllowedSelf, selfTransitionTable.
  repeat (case_string_eqb; simpl);
    try (left; split; [ intuition congruence | reflexivity ]);
    right; (split; [ | reflexivity ]); intuition congruence.
Qed.

Lemma membershipAllowedOther_cases (m : membershipAllower) :
  (otherTransitionTable m /\ membershipAllowedOther m = Ok tt) \/
  (~ otherTransitionTable m /\ membershipAllowedOther m = membershipFailed m).
Proof.
  unfold membershipAllowedOther, otherTransitionTable.
  repeat (case_string_eqb; simpl); repeat (case_level_cmp; simpl);
    try (left; split; [ intuition (congruence || lia) | reflexivity ]);
    right; (split; [ | reflexivity ]); intuition (congruence || lia).
Qed.

Lemma membershipAllower_setup_old_absent
      (event : Event) (authEvents : AuthEvents.t) (m : membershipAllower) :
  membershipAllower_setup event authEvents = Ok m ->
  AuthEvents.Member authEvents (targetID m) = Ok None ->
  Membership (oldMember m) = "leave".
Proof.
  unfold membershipAllower_setup. intros Hsetup.
  destruct (StateKey event) as [target|]; simpl in Hsetup; [ | discriminate ].
  destruct (memberContent.load authEvents (Sender event)) as [sm| |];
    simpl in Hsetup; try discriminate.
  destruct (memberContent.load authEvents target) as [om| |] eqn:Hold;
    simpl in Hsetup; try discriminate.
  destruct (memberContent.parse event) as [nm| |]; simpl in Hsetup; try discriminate.
  destruct (createContent.load authEvents) as [c| |]; simpl in Hsetup; try discriminate.
  destruct (powerLevelContent.load authEvents (Creator c)) as [pl| |];
    simpl in Hsetup; try discriminate.
  destruct (joinRuleContent.load authEvents) as [jr| |]; simpl in Hsetup; try discriminate.
  injection Hsetup as <-. simpl. intros Habsent.
  unfold memberContent.load in Hold. rewrite Habsent in Hold. simpl in Hold.
  injection Hold as <-. reflexivity.
Qed.

(** C4. For a member event whose sender is its target, the transition
    machine admits exactly the rows of the self-transition table
    (leave to join under the join rule public; invite to join under public
    or invite; join to join, join to leave and invite to leave always) and
    denies every other self-transition; the prior membership of a target
    without a member entry is leave. *)
Theorem self_transitions_follow_table
        (m : membershipAllower) (Hself : targetID m = senderID m) :
  let table := selfTransitionTable (Membership (oldMember m))
                 (Membership (newMember m)) (JoinRule (joinRule m)) in
  (admitted (membershipAllowed m) <-> table) /\
  (~ table -> denied (membershipAllowed m)) /\
  (forall event authEvents,
      membershipAllower_setup event authEvents = Ok m ->
      AuthEvents.Member authEvents (targetID m) = Ok None ->
      Membership (oldMember m) = "leave").
Proof.
  intros table. unfold membershipAllowed.
  destruct (String.eqb_spec (targetID m) (senderID m)) as [_ | N]; [ | contradiction ].
  destruct (membershipAllowedSelf_cases m) as [[Ht Hr] | [Ht Hr]];
    fold table in Ht; rewrite Hr.
  - split; [ | split ].
    + split; [ intros _; exact Ht | intros _; reflexivity ].
    + intros Hn. contradiction.
    + intros event authEvents. apply membershipAllower_setup_old_absent.
  - pose proof (membershipFailed_denied m) as Hd.
    split; [ | split ].
    + split; [ intros Ha; destruct (denied_not_admitted _ Hd Ha) | intros H; contradiction ].
    + intros _. exact Hd.
    + intros event authEvents. apply membershipAllower_setup_old_absent.
Qed.

Lemma self_transitions_follow_table_witness :
  targetID bob_joining = senderID bob_joining /\
  membershipAllower_setup bob_joins public_room = Ok bob_joining /\
  admitted (membershipAllowed bob_joining) /\
  Membership (oldMember bob_joining) = "leave".
Proof.
  assert (Hself : targetID bob_joining = senderID bob_joining) by reflexivity.
  assert (Hsetup : membershipAllower_setup bob_joins public_room = Ok bob_joining)
    by reflexivity.
  destruct (self_transitions_follow_table bob_joining Hself) as [Hiff [_ Habsent]].
  split; [ exact Hself | split; [ exact Hsetup | split ] ].
  - apply Hiff. left. repeat split.
  - apply (Habsent bob_joins public_room Hsetup). reflexivity.
Defined.

Lemma membershipAllower_setup_fields
      (event : Event) (authEvents : AuthEvents.t) (m : membershipAllower) :
  membershipAllower_setup event authEvents = Ok m ->
  StateKey event = Some (targetID m) /\
  senderID m = Sender event /\
  createContent.load authEvents = Ok (create m) /\
  memberContent.parse event = Ok (newMember m).
Proof.
  unfold membershipAllower_setup. intros Hsetup.
  destruct (StateKey event) as [target|]; simpl in Hsetup; [ | discriminate ].
  destruct (memberContent.load authEvents (Sender event)) as [sm| |];
    simpl in Hsetup; try discriminate.
  destruct (memberContent.load authEvents target) as [om| |];
    simpl in Hsetup; try discriminate.
  destruct (memberContent.parse event) as [nm| |]; simpl in Hsetup; try discriminate.
  destruct (createContent.load authEvents) as [c| |]; simpl in Hsetup; try discriminate.
  destruct (powerLevelContent.load authEvents (Creator c)) as [pl| |];
    simpl in Hsetup; try discriminate.
  destruct (joinRuleContent.load authEvents) as [jr| |]; simpl in Hsetup; try discriminate.
  injection Hsetup as <-. simpl. repeat split.
Qed.

(** Outside the first-join block and the third-party invite path the member
    rule is the transition machine. *)
Lemma memberEventAllowed_machine
      (event : Event) (authEvents : AuthEvents.t) (m : membershipAllower) :
  Type_ event = "m.room.member" ->
  membershipAllower_setup event authEvents = Ok m ->
  createContent.idAllowed (create m) (senderID m) = Ok tt ->
  createContent.idAllowed (create m) (targetID m) = Ok tt ->
  targetID m <> senderID m \/ Membership (newMember m) <> "join" ->
  Membership (newMember m) <> "invite" \/
  memberContent.ThirdPartyInvite (newMember m) = None ->
  Allowed event authEvents = membershipAllowed m.
Proof.
  intros Htype Hsetup Hsender Htarget Hfirst Hthird.
  destruct (membershipAllower_setup_fields _ _ _ Hsetup)
    as (Hkey & Hid & Hload & Hparse).
  unfold Allowed. rewrite Htype. simpl.
  unfold memberEventAllowed. rewrite Hload. simpl.
  rewrite <- Hid, Hsender. simpl. rewrite Hparse. simpl. rewrite Hkey.
  assert (Husual : memberEventAllowed_usual event authEvents (create m)
                     (newMember m) (targetID m) = membershipAllowed m).
  { unfold memberEventAllowed_usual. rewrite Htarget. simpl.
    destruct Hthird as [Hn | Hn].
    - destruct (String.eqb_spec (Membership (newMember m)) "invite");
        [ contradiction | ].
      simpl. rewrite Hsetup. reflexivity.
    - rewrite Hn, andb_false_r. rewrite Hsetup. reflexivity. }
  rewrite Husual.
  destruct (String.eqb_spec (senderID m) (targetID m)) as [E | _];
    [ | rewrite andb_false_r; reflexivity ].
  destruct Hfirst as [Hn | Hn]; [ symmetry in E; contradiction | ].
  destruct (String.eqb_spec (Membership (newMember m)) "join");
    [ contradiction | ].
  rewrite andb_false_r. reflexivity.
Qed.

(** The ban row of the machine, for every state of it. *)
Lemma membershipAllowed_ban (m : membershipAllower) :
  targetID m <> senderID m ->
  Membership (newMember m) = "ban" ->
  let S := userLevel (powerLevels m) (senderID m) in
  let T := userLevel (powerLevels m) (targetID m) in
  let condition :=
    Membership (senderMember m) = "join" /\ S >= banLevel (powerLevels m) /\ S > T in
  (admitted (membershipAllowed m) <-> condition) /\
  (~ condition -> denied (membershipAllowed m)).
Proof.
  intros Hother Hban S T condition. unfold membershipAllowed.
  destruct (String.eqb_spec (targetID m) (senderID m)) as [E | _]; [ contradiction | ].
  assert (Htable : otherTransitionTable m <-> condition).
  { unfold otherTransitionTable, condition, S, T. rewrite Hban.
    intuition (congruence || lia). }
  destruct (membershipAllowedOther_cases m) as [[Ht Hr] | [Ht Hr]]; rewrite Hr.
  - split.
    + split; [ intros _; apply Htable, Ht | intros _; reflexivity ].
    + intros Hn. destruct Hn. apply Htable, Ht.
  - pose proof (membershipFailed_denied m) as Hd.
    split.
    + split; [ intros Ha; destruct (denied_not_admitted _ Hd Ha) | ].
      intros Hc. destruct Ht. apply Htable, Hc.
    + intros _. exact Hd.
Qed.

(** C5, as amended. For a member event whose sender is not its target and
    whose new membership is ban, whose auth state loads and whose sender
    and target both satisfy the federation policy of the create event, the
    rule is the transition machine, and the event is admitted if and only
    if the sender's membership is join, the sender's level is at least the
    ban level, and the sender's level is strictly greater than the
    target's; otherwise it is denied. *)
Theorem ban_requires_level_above_target
        (event : Event) (authEvents : AuthEvents.t) (m : membershipAllower)
        (Htype : Type_ event = "m.room.member")
        (Hsetup : membershipAllower_setup event authEvents = Ok m)
        (Hother : targetID m <> senderID m)
        (Hban : Membership (newMember m) = "ban")
        (Hsender : createContent.idAllowed (create m) (senderID m) = Ok tt)
        (Htarget : createContent.idAllowed (create m) (targetID m) = Ok tt) :
  let S := userLevel (powerLevels m) (senderID m) in
  let T := userLevel (powerLevels m) (targetID m) in
  let condition :=
    Membership (senderMember m) = "join" /\ S >= banLevel (powerLevels m) /\ S > T in
  (admitted (Allowed event authEvents) <-> condition) /\
  (~ condition -> denied (Allowed event authEvents)).
Proof.
  intros S T condition.
  rewrite (memberEventAllowed_machine event authEvents m Htype Hsetup Hsender Htarget).
  - apply membershipAllowed_ban; assumption.
  - left. exact Hother.
  - left. rewrite Hban. discriminate.
Qed.

Lemma ban_requires_level_above_target_witness :
  membershipAllower_setup (member_event alice bob "ban" []) public_room =
  Ok (alice_moves_bob "ban") /\
  admitted (Allowed (member_event alice bob "ban" []) public_room).
Proof.
  assert (Hsetup : membershipAllower_setup (member_event alice bob "ban" []) public_room
                   = Ok (alice_moves_bob "ban")) by reflexivity.
  assert (Hother : targetID (alice_moves_bob "ban") <> senderID (alice_moves_bob "ban"))
    by (simpl; discriminate).
  split; [ exact Hsetup | ].
  apply (ban_requires_level_above_target (member_event alice bob "ban" []) public_room
           (alice_moves_bob "ban") eq_refl Hsetup Hother eq_refl eq_refl eq_refl).
  vm_compute. repeat split; discriminate.
Defined.

(** C5, counterexample. In a room that does not federate, [alice], joined
    and with level 100, bans [bob] of another server, whose level is 0: the
    sender is not the target, the sender's membership is join, her level is
    at least the ban level and strictly above the target's, and the event
    is denied, because the target does not satisfy the federation
    policy. *)
Lemma ban_in_unfederated_room_denied :
  membershipAllower_setup alice_bans_bob local_room = Ok alice_bans_bob_locally /\
  targetID alice_bans_bob_locally <> senderID alice_bans_bob_locally /\
  Membership (newMember alice_bans_bob_locally) = "ban" /\
  Membership (senderMember alice_bans_bob_locally) = "join" /\
  userLevel (powerLevels alice_bans_bob_locally) (senderID alice_bans_bob_locally) >=
  banLevel (powerLevels alice_bans_bob_locally) /\
  userLevel (powerLevels alice_bans_bob_locally) (senderID alice_bans_bob_locally) >
  userLevel (powerLevels alice_bans_bob_locally) (targetID alice_bans_bob_locally) /\
  Allowed alice_bans_bob local_room =
  Err (NotAllowed (Sprintf "room is unfederatable" [])) /\
  ~ admitted (Allowed alice_bans_bob local_room).
Proof.
  split; [ reflexivity | ].
  split; [ simpl; discriminate | ].
  split; [ reflexivity | ].
  split; [ reflexivity | ].
  split; [ vm_compute; discriminate | ].
  split; [ vm_compute; reflexivity | ].
  split; [ reflexivity | ].
  intros H. discriminate H.
Qed.

(** C10. For a member event whose sender is not its target, the transition
    machine denies a new membership of join or knock whatever the levels,
    join rule and prior memberships are: it admits only the new
    memberships ban, leave and invite. *)
Theorem other_user_cannot_be_joined
        (m : membershipAllower) (Hother : targetID m <> senderID m) :
  let new := Membership (newMember m) in
  (new = "join" \/ new = "knock" -> denied (membershipAllowed m)) /\
  (admitted (membershipAllowed m) ->
   new = "ban" \/ new = "leave" \/ new = "invite").
Proof.
  intros new. unfold membershipAllowed.
  destruct (String.eqb_spec (targetID m) (senderID m)) as [E | _]; [ contradiction | ].
  destruct (membershipAllowedOther_cases m) as [[Ht Hr] | [Ht Hr]]; rewrite Hr.
  - assert (Hnew : new = "ban" \/ new = "leave" \/ new = "invite").
    { unfold otherTransitionTable in Ht. fold new in Ht. intuition. }
    split; [ | intros _; exact Hnew ].
    intros [Hj | Hk]; exfalso; rewrite ?Hj, ?Hk in Hnew;
      destruct Hnew as [H | [H | H]]; discriminate H.
  - pose proof (membershipFailed_denied m) as Hd.
    split; [ intros _; exact Hd | ].
    intros Ha. destruct (denied_not_admitted _ Hd Ha).
Qed.

Lemma other_user_cannot_be_joined_witness :
  targetID (alice_moves_bob "join") <> senderID (alice_moves_bob "join") /\
  denied (membershipAllowed (alice_moves_bob "join")).
Proof.
  assert (Hother : targetID (alice_moves_bob "join") <> senderID (alice_moves_bob "join"))
    by (simpl; discriminate).
  split; [ exact Hother | ].
  apply (other_user_cannot_be_joined (alice_moves_bob "join") Hother).
  left. reflexivity.
Defined.

(** ** The member rule *)

Lemma has_byte_after_colon (id : string) :
  has_byte ":" id = true -> exists domain, after_colon id = Some domain.
Proof.
  induction id as [ | c rest IH]; simpl; [ discriminate | ].
  destruct (Ascii.eqb c ":"); simpl; eauto.
Qed.

Lemma idAllowed_creator (c : createContent.t) :
  has_byte ":" (Creator c) = true -> createContent.idAllowed c (Creator c) = Ok tt.
Proof.
  intros H. destruct (has_byte_after_colon _ H) as [d Hd].
  unfold createContent.idAllowed, createContent.domainAllowed, domainFromID.
  rewrite Hd. simpl. destruct (Federate c); [ reflexivity | ].
  simpl. rewrite String.eqb_refl. reflexivity.
Qed.

Lemma len_is_one {A : Type} (l : list A) : len l = 1 -> exists x, l = [x].
Proof.
  unfold len. destruct l as [ | x [ | y l]]; simpl; intros H; try lia.
  eauto.
Qed.

Lemma len_is_two {A : Type} (l : list A) : len l = 2 -> exists x y, l = [x; y].
Proof.
  unfold len. destruct l as [ | x [ | y [ | z l]]]; simpl; intros H; try lia.
  eauto.
Qed.

(** With no join rules, no power levels and no member entries, the
    transition machine admits nothing. *)
Lemma absent_state_machine_denies
      (event : Event) (authEvents : AuthEvents.t) (m : membershipAllower) :
  AuthEvents.JoinRules authEvents = Ok None ->
  (forall userID, AuthEvents.Member authEvents userID = Ok None) ->
  membershipAllower_setup event authEvents = Ok m ->
  denied (membershipAllowed m).
Proof.
  intros Hrules Hmember. unfold membershipAllower_setup.
  destruct (StateKey event) as [target|]; simpl; [ | discriminate ].
  unfold memberContent.load, joinRuleContent.load.
  rewrite !Hmember, Hrules. simpl.
  destruct (memberContent.parse event) as [nm| |]; simpl; try discriminate.
  destruct (createContent.load authEvents) as [c| |]; simpl; try discriminate.
  destruct (powerLevelContent.load authEvents (Creator c)) as [pl| |];
    simpl; try discriminate.
  intros Hm. injection Hm as <-.
  unfold membershipAllowed. simpl.
  match goal with |- denied (if ?b then _ else _) => destruct b end.
  - match goal with |- denied (membershipAllowedSelf ?m) =>
      destruct (membershipAllowedSelf_cases m) as [[Ht _] | [_ ->]];
        [ | apply membershipFailed_denied ] end.
    unfold selfTransitionTable in Ht. simpl in Ht.
    exfalso. intuition discriminate.
  - match goal with |- denied (membershipAllowedOther ?m) =>
      destruct (membershipAllowedOther_cases m) as [[Ht _] | [_ ->]];
        [ | apply membershipFailed_denied ] end.
    unfold otherTransitionTable in Ht. simpl in Ht.
    exfalso. intuition discriminate.
Qed.

Lemma memberEventAllowed_usual_absent
      (event : Event) (authEvents : AuthEvents.t)
      (create : createContent.t) (newMember : memberContent.t) (target : string) :
  AuthEvents.JoinRules authEvents = Ok None ->
  (forall userID, AuthEvents.Member authEvents userID = Ok None) ->
  ~ admitted (memberEventAllowed_usual event authEvents create newMember target).
Proof.
  intros Hrules Hmember. unfold memberEventAllowed_usual, admitted.
  destruct (createContent.idAllowed create target) as [[]| |]; simpl; try discriminate.
  match goal with |- context [if ?b then _ else _] => destruct b end;
    [ discriminate | ].
  destruct (membershipAllower_setup event authEvents) as [m| |] eqn:Hsetup;
    simpl; try discriminate.
  apply denied_not_admitted.
  eapply absent_state_machine_denies; eauto.
Qed.

Lemma createContent_parse_eventID (createEvent : Event) (create : createContent.t) :
  createContent.parse createEvent = Ok create -> eventID create = EventID createEvent.
Proof.
  unfold createContent.parse.
  destruct (Content createEvent) as [ | | | | | fields]; try discriminate.
  destruct (opt_string "creator" fields) as [creator|]; [ | discriminate ].
  destruct (obj_get "m.federate" fields) as [[ | b | | | | ]|];
    try discriminate; intros H; injection H as <-; reflexivity.
Qed.

(** C3. A member event with exactly one prior-event reference, new
    membership join, sender equal to target equal to the creator of the
    create event, and whose prior event is the create event, is admitted;
    and when join rules, power levels and all member entries are absent, a
    member event is admitted only in that way. The create event is the one
    the oracle returns, and the sender is an identifier with a server
    domain. *)
Theorem creator_bootstrap_join
        (event : Event) (authEvents : AuthEvents.t)
        (createEvent : Event) (create : createContent.t)
        (Htype : Type_ event = "m.room.member")
        (Hcreate : AuthEvents.Create authEvents = Ok (Some createEvent))
        (Hparse : createContent.parse createEvent = Ok create) :
  eventID create = EventID createEvent /\
  (bootstrapJoin event create ->
   has_byte ":" (Sender event) = true ->
   admitted (Allowed event authEvents)) /\
  (AuthEvents.JoinRules authEvents = Ok None ->
   AuthEvents.PowerLevels authEvents = Ok None ->
   (forall userID, AuthEvents.Member authEvents userID = Ok None) ->
   admitted (Allowed event authEvents) ->
   bootstrapJoin event create).
Proof.
  split; [ apply createContent_parse_eventID, Hparse | ].
  assert (HAllowed : Allowed event authEvents = memberEventAllowed event authEvents).
  { unfold Allowed. rewrite Htype. reflexivity. }
  rewrite HAllowed. unfold memberEventAllowed, createContent.load.
  rewrite Hcreate. simpl. rewrite Hparse. simpl.
  split.
  - intros (prev & hashes & newMember & Hprev & Hid & Hmember & Hjoin & Hkey & Hcreator)
           Hdomain.
    rewrite <- Hcreator at 1. rewrite idAllowed_creator by (rewrite Hcreator; exact Hdomain).
    simpl. rewrite Hmember. simpl. rewrite Hkey, Hprev, Hjoin, Hcreator.
    simpl. rewrite Hid. repeat (rewrite String.eqb_refl; simpl). reflexivity.
  - intros Hrules _ Hmembers.
    destruct (createContent.idAllowed create (Sender event)) as [[]| |];
      simpl; try discriminate.
    destruct (memberContent.parse event) as [newMember| |] eqn:Hmember;
      simpl; try discriminate.
    destruct (StateKey event) as [target|] eqn:Hkey; [ | discriminate ].
    destruct (Z.eqb_spec (len (PrevEvents event)) 1) as [Hone | _]; simpl;
      [ | intros Ha; destruct (memberEventAllowed_usual_absent _ _ _ _ _ Hrules Hmembers Ha) ].
    destruct (String.eqb_spec (Membership newMember) "join") as [Hjoin | _]; simpl;
      [ | intros Ha; destruct (memberEventAllowed_usual_absent _ _ _ _ _ Hrules Hmembers Ha) ].
    destruct (String.eqb_spec (Creator create) target) as [Hcreator | _]; simpl;
      [ | intros Ha; destruct (memberEventAllowed_usual_absent _ _ _ _ _ Hrules Hmembers Ha) ].
    destruct (String.eqb_spec (Sender event) target) as [Hsender | _]; simpl;
      [ | intros Ha; destruct (memberEventAllowed_usual_absent _ _ _ _ _ Hrules Hmembers Ha) ].
    destruct (len_is_one _ Hone) as [ref Href]. rewrite Href. simpl.
    destruct (Z.eqb_spec (len ref) 2) as [Htwo | _]; simpl; [ | discriminate ].
    destruct (len_is_two _ Htwo) as (prev & hashes & ->). simpl.
    destruct (unmarshal_string prev) as [prevEventID|] eqn:Hprev; [ | discriminate ].
    destruct (String.eqb_spec prevEventID (eventID create)) as [Hid | _];
      [ | intros Ha; destruct (memberEventAllowed_usual_absent _ _ _ _ _ Hrules Hmembers Ha) ].
    intros _. exists prev, hashes, newMember.
    subst prevEventID. rewrite Hsender, Hcreator.
    repeat split; auto.
Qed.

Lemma creator_bootstrap_join_witness :
  admitted (Allowed (creator_join "$create:a") new_room) /\
  ~ admitted (Allowed (creator_join "$other:a") new_room).
Proof.
  assert (Hparse : createContent.parse create_event =
                   Ok {| Creator := alice; Federate := true; eventID := "$create:a" |})
    by reflexivity.
  split.
  - apply (creator_bootstrap_join (creator_join "$create:a") new_room create_event _
             eq_refl eq_refl Hparse).
    + exists (JString "$create:a"), (JObject []),
        {| Membership := "join"; memberContent.ThirdPartyInvite := None |}.
      repeat split.
    + reflexivity.
  - intros Ha.
    apply (creator_bootstrap_join (creator_join "$other:a") new_room create_event _
             eq_refl eq_refl Hparse) in Ha; try reflexivity.
    destruct Ha as (prev & hashes & newMember & Hprev & Hid & _).
    injection Hprev as <- _. discriminate Hid.
Defined.

(** ** The power-levels rule *)

Lemma range_declaring_outer {K V S : Type} (keys : list K) (e : K -> V) (outer : S) :
  range_declaring keys e outer = outer.
Proof.
  unfold range_declaring. induction keys as [ | k keys IH]; simpl; auto.
Qed.

(** Only the six scalar pairs reach the checking loops. *)
Lemma lastLoopChecks_scalars (old new : powerLevelContent.t) :
  lastLoopChecks old new = scalarChecks old new.
Proof.
  unfold lastLoopChecks. rewrite !range_declaring_outer. reflexivity.
Qed.

Lemma checkLevels_cases (S : Z) (checks : list levelPair) :
  admitted (checkLevels S checks) \/ denied (checkLevels S checks).
Proof.
  induction checks as [ | [old new] rest IH]; simpl; [ left; reflexivity | ].
  match goal with |- context [if ?b then _ else _] => destruct b end; auto.
  right. unfold denied, errorf. eauto.
Qed.

Lemma checkLevels_admitted (S : Z) (checks : list levelPair) :
  admitted (checkLevels S checks) <->
  forall old new, In (old, new) checks -> old <> new -> S >= old /\ S >= new.
Proof.
  unfold admitted.
  induction checks as [ | [o n] rest IH]; simpl.
  - split; [ intros _ old new [] | reflexivity ].
  - destruct (Z.eqb_spec o n) as [E | E]; simpl.
    + rewrite IH. split.
      * intros H old new [Hp | Hin]; [ injection Hp as <- <-; contradiction | auto ].
      * intros H old new Hin. apply H. right. exact Hin.
    + destruct (Z.ltb_spec S o) as [Lo | Lo]; simpl;
        [ | destruct (Z.ltb_spec S n) as [Ln | Ln]; simpl ].
      * split; [ discriminate | ].
        intros H. destruct (H o n (or_introl eq_refl) E). lia.
      * split; [ discriminate | ].
        intros H. destruct (H o n (or_introl eq_refl) E). lia.
      * rewrite IH. split.
        -- intros H old new [Hp | Hin]; [ injection Hp as <- <-; lia | auto ].
        -- intros H old new Hin. apply H. right. exact Hin.
Qed.

Lemma checkUserLevels_cases (S : Z) (checks : list levelPair) :
  admitted (checkUserLevels S checks) \/ denied (checkUserLevels S checks).
Proof.
  induction checks as [ | [old new] rest IH]; simpl; [ left; reflexivity | ].
  match goal with |- context [if ?b then _ else _] => destruct b end; auto.
  right. unfold denied, errorf. eauto.
Qed.

Lemma checkUserLevels_admitted (S : Z) (checks : list levelPair) :
  admitted (checkUserLevels S checks) <->
  forall old new, In (old, new) checks -> old <> new -> S > old /\ S >= new.
Proof.
  unfold admitted.
  induction checks as [ | [o n] rest IH]; simpl.
  - split; [ intros _ old new [] | reflexivity ].
  - destruct (Z.eqb_spec o n) as [E | E]; simpl.
    + rewrite IH. split.
      * intros H old new [Hp | Hin]; [ injection Hp as <- <-; contradiction | auto ].
      * intros H old new Hin. apply H. right. exact Hin.
    + destruct (Z.leb_spec S o) as [Lo | Lo]; simpl;
        [ | destruct (Z.ltb_spec S n) as [Ln | Ln]; simpl ].
      * split; [ discriminate | ].
        intros H. destruct (H o n (or_introl eq_refl) E). lia.
      * split; [ discriminate | ].
        intros H. destruct (H o n (or_introl eq_refl) E). lia.
      * rewrite IH. split.
        -- intros H old new [Hp | Hin]; [ injection Hp as <- <-; lia | auto ].
        -- intros H old new Hin. apply H. right. exact Hin.
Qed.

(** Past the common checks and the parsing of the new content the rule is
    the check of the user IDs followed by the two loops. *)
Lemma powerLevelEventAllowed_loops
      (event : Event) (authEvents : AuthEvents.t)
      (allower : eventAllower) (newPowerLevels : powerLevelContent.t) :
  eventAllower_setup authEvents (Sender event) = Ok allower ->
  defaultAllowed allower event = Ok tt ->
  powerLevelContent.parse event = Ok newPowerLevels ->
  powerLevelEventAllowed event authEvents =
  (checkUserIDs (map_keys (userLevels newPowerLevels)) ;;;
   checkLevels (userLevel (ea_powerlevels allower) (Sender event))
     (lastLoopChecks (ea_powerlevels allower) newPowerLevels) ;;;
   checkUserLevels (userLevel (ea_powerlevels allower) (Sender event))
     (lastLoopChecks (ea_powerlevels allower) newPowerLevels)).
Proof.
  intros Hsetup Hcommon Hparse. unfold powerLevelEventAllowed.
  rewrite Hsetup. simpl. rewrite Hcommon. simpl. rewrite Hparse. reflexivity.
Qed.

(** What the rule decides, as the source has it: the six scalar pairs are
    checked by both loops, and nothing else is. *)
Lemma powerLevelEventAllowed_scalars
      (event : Event) (authEvents : AuthEvents.t)
      (allower : eventAllower) (newPowerLevels : powerLevelContent.t) :
  eventAllower_setup authEvents (Sender event) = Ok allower ->
  defaultAllowed allower event = Ok tt ->
  powerLevelContent.parse event = Ok newPowerLevels ->
  checkUserIDs (map_keys (userLevels newPowerLevels)) = Ok tt ->
  let S := userLevel (ea_powerlevels allower) (Sender event) in
  admitted (powerLevelEventAllowed event authEvents) <->
  forall old new,
    In (old, new) (scalarChecks (ea_powerlevels allower) newPowerLevels) ->
    old <> new -> S > old /\ S >= new.
Proof.
  intros Hsetup Hcommon Hparse Hids S.
  rewrite (powerLevelEventAllowed_loops _ _ _ _ Hsetup Hcommon Hparse).
  rewrite Hids, lastLoopChecks_scalars. fold S.
  rewrite <- checkUserLevels_admitted.
  destruct (checkLevels_cases S (scalarChecks (ea_powerlevels allower) newPowerLevels))
    as [Ha | Hd].
  - rewrite Ha. cbv [bind]. reflexivity.
  - split.
    + destruct Hd as [msg ->]. cbv [bind]. discriminate.
    + intros Hu. exfalso. apply (denied_not_admitted _ Hd).
      apply checkLevels_admitted. intros old new Hin Hne.
      destruct (proj1 (checkUserLevels_admitted _ _) Hu old new Hin Hne). lia.
Qed.




(** C2, at the failing input. [alice], whose level is 50, lowers [ban] from
    50 to 40: her level is at least both values, yet the last loop denies
    the event as a change of user level. And she raises the level of an
    event type from 0 to 100, above her own, and is admitted. *)
Theorem lowering_ban_at_own_level_denied :
  powerLevelContent.load room50 alice = Ok levels50 /\
  userLevel levels50 (Sender lower_ban) >= Z.max 50 40 /\
  Allowed lower_ban room50 =
  Err (NotAllowed
         (Sprintf "sender with level %d is not allowed to change user level from %d to %d"
            [ArgD 50; ArgD 50; ArgD 40])) /\
  eventLevel levels50 "m.room.name" None = 0 /\
  admitted (Allowed raise_name_level room50).
Proof.
  split; [ reflexivity | ].
  split; [ vm_compute; discriminate | ].
  repeat split.
Qed.

(** A non-empty key is valid when it starts with [@] and has a [:]. *)
Lemma isValidUserID_nonempty (c : ascii) (rest : string) :
  isValidUserID (String c rest) = Ok (Ascii.eqb c "@" && has_byte ":" (String c rest)).
Proof. reflexivity. Qed.

(** C9, at the failing input. The validity check indexes the first byte of
    the key, which panics on the empty string: power levels whose [users]
    map has the empty key make the rule panic instead of denying. *)
Theorem empty_user_key_panics :
  isValidUserID "" = Panic IndexOutOfRange /\
  Allowed empty_user_key room50 = Panic IndexOutOfRange.
Proof. split; reflexivity. Qed.

(** ** The dispatcher and the alias rule *)

(** An event of type [m.room.aliases] matches none of the cases of the
    switch and is handled by the default rule. *)
Lemma Allowed_aliases_default (event : Event) (authEvents : AuthEvents.t) :
  Type_ event = "m.room.aliases" ->
  Allowed event authEvents = defaultEventAllowed event authEvents.
Proof. intros Htype. unfold Allowed. rewrite Htype. reflexivity. Qed.

Lemma Allowed_alias (event : Event) (authEvents : AuthEvents.t) :
  Type_ event = "m.room.alias" ->
  Allowed event authEvents = aliasEventAllowed event authEvents.
Proof. intros Htype. unfold Allowed. rewrite Htype. reflexivity. Qed.

(** C6, at the failing input. An event of type [m.room.aliases] from a
    server whose user is not in the room, with the server's domain as state
    key: the alias rule admits it, the dispatcher applies the default rule
    and denies it because the sender is not in the room. *)
Theorem aliases_event_gets_default_rule :
  Type_ aliases_event = "m.room.aliases" /\
  aliasEventAllowed aliases_event new_room = Ok tt /\
  Allowed aliases_event new_room = defaultEventAllowed aliases_event new_room /\
  Allowed aliases_event new_room =
  Err (NotAllowed (Sprintf "sender %q not in room" [ArgS "@carol:c"])).
Proof. repeat split. Qed.

(** ** The third-party invite path *)

(** C7, as amended. For a member event whose parsed new membership is
    invite and whose content has a third-party-invite sub-object, and which
    passes the checks made before that path (the create entry loads, the
    sender and the target satisfy the federation policy, the state key is
    present), the rule does not return a denial: it panics with an error
    value whose message is "ThirdPartyInvite not implemented". *)
Theorem third_party_invite_panics
        (event : Event) (authEvents : AuthEvents.t)
        (create : createContent.t) (newMember : memberContent.t)
        (target : string) (invite : json)
        (Htype : Type_ event = "m.room.member")
        (Hload : createContent.load authEvents = Ok create)
        (Hsender : createContent.idAllowed create (Sender event) = Ok tt)
        (Hparse : memberContent.parse event = Ok newMember)
        (Hinvite : Membership newMember = "invite")
        (Hthird : memberContent.ThirdPartyInvite newMember = Some invite)
        (Hkey : StateKey event = Some target)
        (Htarget : createContent.idAllowed create target = Ok tt) :
  Allowed event authEvents =
  Panic (PanicError (Sprintf "ThirdPartyInvite not implemented" [])).
Proof.
  unfold Allowed. rewrite Htype. simpl.
  unfold memberEventAllowed. rewrite Hload. simpl.
  rewrite Hsender. simpl. rewrite Hparse. simpl. rewrite Hkey, Hinvite.
  simpl. rewrite !andb_false_r.
  unfold memberEventAllowed_usual. rewrite Htarget, Hinvite, Hthird.
  reflexivity.
Qed.

Lemma third_party_invite_panics_witness :
  Allowed third_party_invite room50 =
  Panic (PanicError (Sprintf "ThirdPartyInvite not implemented" [])).
Proof.
  apply (third_party_invite_panics third_party_invite room50
           {| Creator := alice; Federate := true; eventID := "$create:a" |}
           {| Membership := "invite";
              memberContent.ThirdPartyInvite :=
                Some (JObject [("signed", JObject [("token", JString "token")])]) |}
           bob
           (JObject [("signed", JObject [("token", JString "token")])]));
    reflexivity.
Defined.

(** C7, counterexample. [alice], joined, invites [bob] with a third-party
    invite: the rule returns no denial, it panics. *)
Lemma third_party_invite_not_denied :
  Allowed third_party_invite room50 =
  Panic (PanicError (Sprintf "ThirdPartyInvite not implemented" [])) /\
  ~ denied (Allowed third_party_invite room50).
Proof.
  split; [ reflexivity | ].
  intros [msg H]. discriminate H.
Qed.

(** ** The state needed *)

Lemma unique_empty : unique [] = Panic IndexOutOfRange.
Proof. reflexivity. Qed.

Lemma needed_loop_create_only
      (nilKey : result (list string)) (acc : needed_acc) (events : list Event) :
  Forall (fun event => Type_ event = "m.room.create") events ->
  needed_loop nilKey acc events = Ok acc.
Proof.
  induction 1 as [ | event rest Htype _ IH]; simpl; [ reflexivity | ].
  unfold needed_step. rewrite Htype. simpl. exact IH.
Qed.

(** A batch of create events only makes [StateNeededForAuth] panic. *)
Lemma create_only_batch_panics
      (nilKey : result (list string)) (events : list Event) :
  Forall (fun event => Type_ event = "m.room.create") events ->
  StateNeededForAuth nilKey events = Panic IndexOutOfRange.
Proof.
  intros H. unfold StateNeededForAuth.
  rewrite (needed_loop_create_only _ _ _ H). reflexivity.
Qed.

Lemma update_length {A : Type} (x : list A) (n : nat) (a : A) :
  length (update x n a) = length x.
Proof.
  revert n. induction x as [ | h t IH]; intros [ | n]; simpl; auto.
Qed.

Lemma index_ok {A : Type} (x : list A) (i : Z) (a : A) :
  index x i = Ok a -> 0 <= i /\ x <> [].
Proof.
  unfold index. destruct (Z.ltb_spec i 0) as [L | L]; [ discriminate | ].
  destruct x as [ | h t]; [ destruct (Z.to_nat i); discriminate | ].
  intros _. split; [ exact L | discriminate ].
Qed.

(** When [unique] returns, the length it reports is positive and the slice
    is not empty. *)
Lemma unique_ok_nonempty (data data' : list string) (n : Z) :
  unique data = Ok (n, data') -> 0 < n /\ data' <> [].
Proof.
  unfold unique.
  destruct (unique_loop _ 1 0 data) as [[j data1]| |]; cbv [bind]; try discriminate.
  unfold Swap.
  destruct (index data1 (len data - 1)) as [a| |]; cbv [bind]; try discriminate.
  destruct (index data1 j) as [b| |] eqn:Hb; cbv [bind]; try discriminate.
  intros H. injection H as <- <-.
  destruct (index_ok _ _ _ Hb) as [Hj Hne].
  split; [ lia | ].
  intros Hnil. apply Hne.
  apply (f_equal (@length string)) in Hnil. rewrite !update_length in Hnil.
  destruct data1; [ reflexivity | discriminate Hnil ].
Qed.

Lemma index_in_range {A : Type} (x : list A) (i : Z) :
  0 <= i < len x -> exists a, index x i = Ok a.
Proof.
  unfold index, len. intros [Hlo Hhi].
  destruct (Z.ltb_spec i 0) as [L | _]; [ lia | ].
  destruct (nth_error x (Z.to_nat i)) as [a|] eqn:E; [ eauto | ].
  apply nth_error_None in E. lia.
Qed.

Lemma Swap_in_range (x : list string) (i j : Z) :
  0 <= i < len x -> 0 <= j < len x ->
  exists x', Swap x i j = Ok x' /\ len x' = len x.
Proof.
  intros Hi Hj. unfold Swap.
  destruct (index_in_range x i Hi) as [a ->].
  destruct (index_in_range x j Hj) as [b ->].
  cbv [bind]. eexists. split; [ reflexivity | ].
  unfold len. rewrite !update_length. reflexivity.
Qed.

(** The loop of [unique] stays inside the slice and keeps [j] below [i]. *)
Lemma unique_loop_returns (n : nat) :
  forall (i j : Z) (data : list string),
    0 <= j < i -> i + Z.of_nat n <= len data ->
    exists j' data',
      unique_loop n i j data = Ok (j', data') /\
      len data' = len data /\ 0 <= j' < i + Z.of_nat n.
Proof.
  induction n as [ | n IH]; intros i j data Hj Hi.
  - exists j, data. simpl. repeat split; lia.
  - cbn [unique_loop]. unfold Less.
    destruct (index_in_range data (i - 1)) as [a ->]; [ lia | ].
    destruct (index_in_range data i) as [b ->]; [ lia | ].
    cbv [bind]. destruct (String.ltb a b).
    + destruct (Swap_in_range data (i - 1) j) as (data1 & -> & Hlen); [ lia | lia | ].
      destruct (IH (i + 1) (j + 1) data1) as (j' & data' & Hr & Hlen' & Hj');
        [ lia | lia | ].
      exists j', data'. rewrite Hr. repeat split; lia.
    + destruct (IH (i + 1) j data) as (j' & data' & Hr & Hlen' & Hj');
        [ lia | lia | ].
      exists j', data'. rewrite Hr. repeat split; lia.
Qed.

(** On a slice that is not empty [unique] returns, with a length between 1
    and the length of the slice. *)
Lemma unique_nonempty_returns (data : list string) :
  data <> [] ->
  exists n data',
    unique data = Ok (n, data') /\ len data' = len data /\ 1 <= n <= len data.
Proof.
  intros Hne. unfold unique.
  assert (Hlen : 1 <= len data).
  { unfold len. destruct data; [ contradiction | simpl; lia ]. }
  destruct (unique_loop_returns (Z.to_nat (len data - 1)) 1 0 data)
    as (j & data1 & -> & Hlen1 & Hj); [ lia | lia | ].
  cbv [bind].
  destruct (Swap_in_range data1 (len data - 1) j) as (data2 & -> & Hlen2);
    [ lia | lia | ].
  exists (j + 1), data2. repeat split; lia.
Qed.

(** [StateNeededForAuth] returns only for a batch with at least one
    third-party-invite token. *)
Lemma StateNeededForAuth_returns_with_token
      (nilKey : result (list string)) (events : list Event) (needed : StateNeeded.t) :
  StateNeededForAuth nilKey events = Ok needed ->
  StateNeeded.ThirdPartyInvite needed <> [].
Proof.
  unfold StateNeededForAuth.
  destruct (needed_loop _ _ events) as [acc| |]; cbv [bind]; try discriminate.
  destruct (unique (sort_Strings (members acc))) as [um| |]; try discriminate.
  destruct (unique (sort_Strings (thirdpartyinvites acc))) as [[n tokens]| |] eqn:Hu;
    try discriminate.
  intros H. injection H as <-. simpl.
  destruct (unique_ok_nonempty _ _ _ Hu) as [Hn Hne].
  unfold slice_to.
  destruct tokens as [ | t tokens]; [ contradiction | ].
  destruct (Z.to_nat n) eqn:E; [ lia | discriminate ].
Qed.

(** C8, at the failing input. On the empty batch, on a batch of create
    events only and on a batch without third-party-invite tokens,
    [unique] is handed an empty slice and its last [Swap] indexes it at
    [-1]: [StateNeededForAuth] panics instead of returning a record,
    whatever the line for member events does with a nil state key. *)
Theorem state_needed_empty_batch_panics (nilKey : result (list string)) :
  unique [] = Panic IndexOutOfRange /\
  StateNeededForAuth nilKey [] = Panic IndexOutOfRange /\
  StateNeededForAuth nilKey [create_event] = Panic IndexOutOfRange /\
  StateNeededForAuth nilKey [message_event] = Panic IndexOutOfRange.
Proof. repeat split. Qed.

(** ** [unique] on a slice that is not empty *)

#[local] Open Scope list_scope.

Lemma update_app_l {A : Type} (l r : list A) (n : nat) (a : A) :
  (n < length l)%nat -> update (l ++ r) n a = update l n a ++ r.
Proof.
  revert n. induction l as [ | h t IH]; intros [ | n] H; simpl in *; try lia.
  - reflexivity.
  - rewrite IH by lia. reflexivity.
Qed.

Lemma update_app_r {A : Type} (l r : list A) (x a : A) :
  update (l ++ x :: r) (length l) a = l ++ a :: r.
Proof. induction l as [ | h t IH]; simpl; [ | rewrite IH ]; reflexivity. Qed.

Lemma firstn_update_S {A : Type} (l : list A) (n : nat) (a : A) :
  (n < length l)%nat -> firstn (S n) (update l n a) = firstn n l ++ [a].
Proof.
  revert n. induction l as [ | h t IH]; intros [ | n] H; simpl in *; try lia.
  - reflexivity.
  - f_equal. apply IH. lia.
Qed.

Lemma update_Permutation {A : Type} (l : list A) (n : nat) (a b : A) :
  nth_error l n = Some b -> Permutation (a :: l) (b :: update l n a).
Proof.
  revert n. induction l as [ | h t IH]; intros [ | n] H; simpl in *; try discriminate.
  - injection H as ->. apply perm_swap.
  - apply (IH n) in H.
    eapply Permutation_trans; [ apply perm_swap | ].
    eapply Permutation_trans; [ apply perm_skip, H | ].
    apply perm_swap.
Qed.

Lemma index_app_r {A : Type} (l r : list A) (x : A) :
  index (l ++ x :: r) (Z.of_nat (length l)) = Ok x.
Proof.
  unfold index. destruct (Z.ltb_spec (Z.of_nat (length l)) 0) as [L | _]; [ lia | ].
  rewrite Nat2Z.id, nth_error_app2 by lia.
  rewrite Nat.sub_diag. reflexivity.
Qed.

(** [Swap] of the element after a prefix [cur] with position [j] of it or
    with itself. *)
Lemma Swap_after_prefix (cur suf : list string) (a : string) (j : nat) :
  (j <= length cur)%nat ->
  exists cur',
    Swap (cur ++ a :: suf) (Z.of_nat (length cur)) (Z.of_nat j) = Ok (cur' ++ suf) /\
    length cur' = S (length cur) /\
    firstn (S j) cur' = firstn j cur ++ [a] /\
    Permutation (cur ++ [a]) cur'.
Proof.
  intros Hj. unfold Swap. rewrite index_app_r. cbv [bind].
  destruct (Nat.eq_dec j (length cur)) as [-> | Hne].
  - rewrite index_app_r. rewrite Nat2Z.id, !update_app_r.
    exists (cur ++ [a]).
    split; [ rewrite <- app_assoc; reflexivity | ].
    repeat split.
    + rewrite length_app. simpl. lia.
    + rewrite firstn_all. rewrite firstn_all2 by (rewrite length_app; simpl; lia).
      reflexivity.
    + apply Permutation_refl.
  - assert (Hlt : (j < length cur)%nat) by lia.
    destruct (nth_error cur j) as [b|] eqn:Hb;
      [ | apply nth_error_None in Hb; lia ].
    unfold index. destruct (Z.ltb_spec (Z.of_nat j) 0) as [L | _]; [ lia | ].
    rewrite !Nat2Z.id, nth_error_app1, Hb by exact Hlt.
    rewrite update_app_r, update_app_l by exact Hlt.
    exists (update cur j a ++ [b]).
    split; [ rewrite <- app_assoc; reflexivity | ].
    repeat split.
    + rewrite length_app, update_length. simpl. lia.
    + rewrite firstn_app, update_length.
      replace (S j - length cur)%nat with 0%nat by lia.
      simpl. rewrite app_nil_r. apply firstn_update_S, Hlt.
    + eapply Permutation_trans; [ apply Permutation_sym, Permutation_cons_append | ].
      eapply Permutation_trans; [ apply update_Permutation, Hb | ].
      apply Permutation_cons_append.
Qed.

Lemma ascents_snoc (pre : list string) (a b : string) :
  ascents ((pre ++ [a]) ++ [b]) =
  (ascents (pre ++ [a]) ++ (if String.ltb a b then [a] else []))%list.
Proof.
  induction pre as [ | x pre IH]; simpl.
  - destruct (String.ltb a b); reflexivity.
  - destruct (pre ++ [a])%list as [ | y rest] eqn:E.
    + destruct pre; discriminate E.
    + simpl in *. destruct (String.ltb x y); rewrite IH; reflexivity.
Qed.

Lemma dedup_adjacent_ascents (pre : list string) (a : string) :
  dedup_adjacent (pre ++ [a]) = (ascents (pre ++ [a]) ++ [a])%list.
Proof.
  induction pre as [ | x pre IH]; simpl; [ reflexivity | ].
  destruct (pre ++ [a])%list as [ | y rest] eqn:E.
  - destruct pre; discriminate E.
  - destruct (String.ltb x y); rewrite IH; reflexivity.
Qed.

(** The loop of [unique], started after the prefix [pre] of the slice:
    [cur] is what the loop has made of [pre], and its first [j] elements are
    the ascents found so far. *)
Lemma unique_loop_ascents (suf : list string) :
  forall (pre cur : list string) (a : string) (j : nat),
    length cur = length pre ->
    (j <= length cur)%nat ->
    firstn j cur = ascents (pre ++ [a]) ->
    Permutation cur pre ->
    exists (j' : nat) (cur' : list string) (z : string) (pre' : list string),
      unique_loop (length suf) (Z.of_nat (length pre) + 1) (Z.of_nat j)
        (cur ++ a :: suf) = Ok (Z.of_nat j', cur' ++ [z]) /\
      (pre ++ a :: suf = pre' ++ [z])%list /\
      length cur' = length pre' /\
      (j' <= length cur')%nat /\
      firstn j' cur' = ascents (pre' ++ [z]) /\
      Permutation cur' pre'.
Proof.
  induction suf as [ | b suf IH]; intros pre cur a j Hlen Hj Hfirst Hperm.
  - exists j, cur, a, pre. simpl. repeat split; auto.
  - cbn [length unique_loop]. unfold Less.
    replace (Z.of_nat (length pre) + 1 - 1) with (Z.of_nat (length cur)) by lia.
    rewrite index_app_r.
    replace (Z.of_nat (length pre) + 1) with (Z.of_nat (length (cur ++ [a])))
      by (rewrite length_app; simpl; lia).
    replace (cur ++ a :: b :: suf)%list with ((cur ++ [a]) ++ b :: suf)%list
      by (rewrite <- app_assoc; reflexivity).
    rewrite index_app_r. cbv [bind].
    replace ((cur ++ [a]) ++ b :: suf)%list with (cur ++ a :: b :: suf)%list
      by (rewrite <- app_assoc; reflexivity).
    pose proof (ascents_snoc pre a b) as Hsnoc.
    destruct (String.ltb a b).
    + destruct (Swap_after_prefix cur (b :: suf) a j Hj)
        as (cur1 & -> & Hlen1 & Hfirst1 & Hperm1).
      cbv [bind].
      destruct (IH (pre ++ [a])%list cur1 b (S j)) as (j' & cur' & z & pre' & Hr & Hrest).
      * rewrite length_app. simpl. lia.
      * lia.
      * rewrite Hfirst1, Hfirst, Hsnoc. reflexivity.
      * eapply Permutation_trans; [ apply Permutation_sym, Hperm1 | ].
        apply Permutation_app_tail, Hperm.
      * exists j', cur', z, pre'.
        replace (Z.of_nat (length (cur ++ [a])) + 1)
          with (Z.of_nat (length (pre ++ [a])) + 1)
          by (rewrite !length_app; simpl; lia).
        replace (Z.of_nat j + 1) with (Z.of_nat (S j)) by lia.
        rewrite Hr. rewrite <- app_assoc in Hrest. simpl in Hrest.
        split; [ reflexivity | exact Hrest ].
    + destruct (IH (pre ++ [a])%list (cur ++ [a])%list b j)
        as (j' & cur' & z & pre' & Hr & Hrest).
      * rewrite !length_app. simpl. lia.
      * rewrite length_app. simpl. lia.
      * rewrite firstn_app. replace (j - length cur)%nat with 0%nat by lia.
        simpl. rewrite app_nil_r, Hfirst, Hsnoc, app_nil_r. reflexivity.
      * apply Permutation_app_tail, Hperm.
      * exists j', cur', z, pre'.
        replace (Z.of_nat (length (cur ++ [a])) + 1)
          with (Z.of_nat (length (pre ++ [a])) + 1)
          by (rewrite !length_app; simpl; lia).
        rewrite <- app_assoc in Hr. simpl in Hr. rewrite Hr.
        rewrite <- app_assoc in Hrest. simpl in Hrest.
        split; [ reflexivity | exact Hrest ].
Qed.

Lemma unique_dedup_adjacent (data : list string) :
  data <> [] ->
  exists (n : Z) (data' : list string),
    unique data = Ok (n, data') /\
    slice_to data' n = dedup_adjacent data /\
    Permutation data data'.
Proof.
  intros Hne.
  destruct data as [ | a suf]; [ contradiction | ].
  destruct (unique_loop_ascents suf [] [] a 0 eq_refl (Nat.le_refl _) eq_refl
              (Permutation_refl _))
    as (j & cur & z & pre & Hr & Hdata & Hlen & Hj & Hfirst & Hperm).
  simpl in Hr, Hdata. unfold unique.
  replace (Z.to_nat (len (a :: suf) - 1)) with (length suf)
    by (unfold len; cbn [length]; lia).
  rewrite Hr. cbv [bind].
  replace (len (a :: suf) - 1) with (Z.of_nat (length cur)).
  2:{ unfold len. rewrite Hdata, Hlen, length_app. simpl. lia. }
  destruct (Swap_after_prefix cur [] z j Hj) as (cur2 & -> & Hlen2 & Hfirst2 & Hperm2).
  cbv [bind]. exists (Z.of_nat j + 1), (cur2 ++ [])%list.
  split; [ reflexivity | ]. rewrite app_nil_r. split.
  - unfold slice_to. replace (Z.to_nat (Z.of_nat j + 1)) with (S j) by lia.
    rewrite Hfirst2, Hfirst, Hdata. symmetry. apply dedup_adjacent_ascents.
  - rewrite Hdata.
    eapply Permutation_trans; [ | apply Hperm2 ].
    apply Permutation_app_tail, Permutation_sym, Hperm.
Qed.

(** X1. On a slice that is not empty [unique] returns a permutation of the
    slice (it swaps in place) whose prefix of the returned length is the
    slice without the elements that are not less than their successor. *)
Theorem unique_keeps_ascents_and_last
        (data : list string) (Hne : data <> []) :
  exists (n : Z) (data' : list string),
    unique data = Ok (n, data') /\
    slice_to data' n = dedup_adjacent data /\
    Permutation data data'.
Proof. apply unique_dedup_adjacent, Hne. Qed.

Lemma unique_keeps_ascents_and_last_witness :
  exists (n : Z) (data' : list string),
    unique ["a"; "a"; "b"; "c"; "c"] = Ok (n, data') /\
    slice_to data' n = ["a"; "b"; "c"] /\
    Permutation ["a"; "a"; "b"; "c"; "c"] data'.
Proof.
  apply (unique_keeps_ascents_and_last ["a"; "a"; "b"; "c"; "c"]).
  discriminate.
Defined.

(** ** Sorted slices *)

Lemma str_le_not_lt_eq (a b : string) :
  String.leb a b = true -> String.ltb a b = false -> a = b.
Proof.
  unfold String.leb, String.ltb.
  destruct (String.compare a b) eqn:E; try discriminate.
  intros _ _. apply String.compare_eq_iff, E.
Qed.

Lemma str_lt_OT (a b : string) : str_lt a b <-> OrderedTypeEx.String_as_OT.lt a b.
Proof.
  unfold str_lt, String.ltb. rewrite <- OrderedTypeEx.String_as_OT.cmp_lt.
  unfold OrderedTypeEx.String_as_OT.cmp. destruct (String.compare a b); intuition discriminate.
Qed.

Lemma str_lt_trans (a b c : string) : str_lt a b -> str_lt b c -> str_lt a c.
Proof. rewrite !str_lt_OT. apply OrderedTypeEx.String_as_OT.lt_trans. Qed.

Lemma str_lt_irrefl (a : string) : ~ str_lt a a.
Proof.
  rewrite str_lt_OT. intros H. apply (OrderedTypeEx.String_as_OT.lt_not_eq _ _ H). reflexivity.
Qed.

Lemma insert_sorted_In (s x : string) (l : list string) :
  In x (insert_sorted s l) <-> x = s \/ In x l.
Proof.
  induction l as [ | h t IH]; simpl.
  - intuition.
  - destruct (String.leb s h); simpl; [ intuition | ].
    rewrite IH. intuition.
Qed.

Lemma sort_Strings_In (x : string) (l : list string) :
  In x (sort_Strings l) <-> In x l.
Proof.
  induction l as [ | h t IH]; simpl; [ reflexivity | ].
  rewrite insert_sorted_In, IH. intuition.
Qed.

Lemma insert_sorted_Sorted (s : string) (l : list string) :
  Sorted str_le l -> Sorted str_le (insert_sorted s l).
Proof.
  induction 1 as [ | h t Hs IH Hd]; simpl.
  - repeat constructor.
  - destruct (String.leb s h) eqn:E.
    + constructor; [ constructor; assumption | constructor; exact E ].
    + assert (Hhs : str_le h s).
      { destruct (String.leb_total s h) as [H | H]; [ congruence | exact H ]. }
      constructor; [ exact IH | ].
      destruct Hd as [ | y r Hy]; simpl.
      * constructor. exact Hhs.
      * destruct (String.leb s y); constructor; assumption.
Qed.

Lemma sort_Strings_Sorted (l : list string) : Sorted str_le (sort_Strings l).
Proof.
  induction l as [ | h t IH]; simpl; [ constructor | ].
  apply insert_sorted_Sorted, IH.
Qed.

Lemma sort_Strings_nil (l : list string) : sort_Strings l = [] <-> l = [].
Proof.
  split; [ | intros ->; reflexivity ].
  destruct l as [ | h t]; [ reflexivity | ]. intros H.
  assert (Hin : In h (sort_Strings (h :: t))) by (apply sort_Strings_In; left; reflexivity).
  rewrite H in Hin. destruct Hin.
Qed.

Lemma dedup_adjacent_head (y : string) (r : list string) :
  Sorted str_le (y :: r) -> exists t, dedup_adjacent (y :: r) = y :: t.
Proof.
  revert y. induction r as [ | z r IH]; intros y Hs.
  - exists []. reflexivity.
  - cbn [dedup_adjacent]. destruct (String.ltb y z) eqn:E; [ eauto | ].
    inversion Hs as [ | ? ? Hs' Hd]; subst. inversion Hd as [ | ? ? Hyz]; subst.
    rewrite (str_le_not_lt_eq y z Hyz E). apply IH, Hs'.
Qed.

Lemma dedup_adjacent_In (x : string) (l : list string) :
  Sorted str_le l -> (In x (dedup_adjacent l) <-> In x l).
Proof.
  induction l as [ | y r IH]; intros Hs; [ reflexivity | ].
  destruct r as [ | z r]; [ reflexivity | ].
  inversion Hs as [ | ? ? Hs' Hd]; subst. inversion Hd as [ | ? ? Hyz]; subst.
  specialize (IH Hs'). cbn [dedup_adjacent]. cbn [dedup_adjacent] in IH.
  destruct (String.ltb y z) eqn:E.
  - simpl In at 1. rewrite IH. simpl. intuition.
  - rewrite IH. rewrite (str_le_not_lt_eq y z Hyz E). simpl. intuition.
Qed.

Lemma dedup_adjacent_Sorted (l : list string) :
  Sorted str_le l -> Sorted str_lt (dedup_adjacent l).
Proof.
  induction l as [ | y r IH]; intros Hs; [ constructor | ].
  destruct r as [ | z r]; [ repeat constructor | ].
  inversion Hs as [ | ? ? Hs' Hd]; subst.
  specialize (IH Hs'). cbn [dedup_adjacent]. cbn [dedup_adjacent] in IH.
  destruct (String.ltb y z) eqn:E; [ | exact IH ].
  constructor; [ exact IH | ].
  destruct (dedup_adjacent_head z r Hs') as [t Ht].
  cbn [dedup_adjacent] in Ht. rewrite Ht. constructor. exact E.
Qed.

Lemma str_lt_StronglySorted (l : list string) :
  Sorted str_lt l -> StronglySorted str_lt l.
Proof.
  apply Sorted_StronglySorted. intros a b c. apply str_lt_trans.
Qed.

Lemma StronglySorted_NoDup (l : list string) : StronglySorted str_lt l -> NoDup l.
Proof.
  induction 1 as [ | a l Hs IH Hall]; constructor; [ | exact IH ].
  intros Hin. rewrite Forall_forall in Hall.
  apply (str_lt_irrefl a), Hall, Hin.
Qed.

(** A strictly increasing slice is determined by its elements. *)
Lemma StronglySorted_unique (l1 : list string) :
  forall l2 : list string,
    StronglySorted str_lt l1 -> StronglySorted str_lt l2 ->
    (forall x, In x l1 <-> In x l2) -> l1 = l2.
Proof.
  induction l1 as [ | a l1 IH]; intros l2 H1 H2 Hin.
  - destruct l2 as [ | b l2]; [ reflexivity | ].
    destruct (proj2 (Hin b) (or_introl eq_refl)).
  - destruct l2 as [ | b l2]; [ destruct (proj1 (Hin a) (or_introl eq_refl)) | ].
    inversion H1 as [ | ? ? Hs1 Hall1]; subst.
    inversion H2 as [ | ? ? Hs2 Hall2]; subst.
    rewrite Forall_forall in Hall1, Hall2.
    assert (Hab : a = b).
    { destruct (proj1 (Hin a) (or_introl eq_refl)) as [E | Ha]; [ auto | ].
      destruct (proj2 (Hin b) (or_introl eq_refl)) as [E | Hb]; [ auto | ].
      exfalso. apply (str_lt_irrefl a).
      apply (str_lt_trans a b a); [ apply Hall1, Hb | apply Hall2, Ha ]. }
    subst b. f_equal. apply IH; auto.
    intros x. split; intros Hx.
    + destruct (proj1 (Hin x) (or_intror Hx)) as [E | Hx2]; [ | exact Hx2 ].
      subst x. destruct (str_lt_irrefl a). apply Hall1, Hx.
    + destruct (proj2 (Hin x) (or_intror Hx)) as [E | Hx1]; [ | exact Hx1 ].
      subst x. destruct (str_lt_irrefl a). apply Hall2, Hx.
Qed.

(** X2. On a sorted slice that is not empty, the prefix [unique] returns is
    strictly increasing, so without duplicates, and has exactly the
    elements of the slice. *)
Theorem unique_of_sorted_is_strictly_increasing
        (data : list string) (Hne : data <> []) (Hsorted : Sorted str_le data) :
  exists (n : Z) (data' : list string),
    unique data = Ok (n, data') /\
    StronglySorted str_lt (slice_to data' n) /\
    NoDup (slice_to data' n) /\
    (forall x, In x (slice_to data' n) <-> In x data).
Proof.
  destruct (unique_dedup_adjacent data Hne) as (n & data' & Hu & Hslice & _).
  exists n, data'. rewrite Hslice.
  assert (Hs : StronglySorted str_lt (dedup_adjacent data))
    by (apply str_lt_StronglySorted, dedup_adjacent_Sorted, Hsorted).
  repeat split; auto.
  - apply StronglySorted_NoDup, Hs.
  - apply dedup_adjacent_In, Hsorted.
  - apply dedup_adjacent_In, Hsorted.
Qed.

Lemma unique_of_sorted_is_strictly_increasing_witness :
  exists (n : Z) (data' : list string),
    unique ["a"; "a"; "b"] = Ok (n, data') /\
    StronglySorted str_lt (slice_to data' n) /\
    NoDup (slice_to data' n) /\
    (forall x, In x (slice_to data' n) <-> In x ["a"; "a"; "b"]).
Proof.
  apply (unique_of_sorted_is_strictly_increasing ["a"; "a"; "b"]).
  - discriminate.
  - repeat constructor.
Defined.

(** ** What [StateNeededForAuth] returns *)

Lemma needsThirdpartyInvite_app (l : list string) (event : Event) :
  needsThirdpartyInvite l event = l ++ needsThirdpartyInvite [] event.
Proof.
  unfold needsThirdpartyInvite.
  destruct (unmarshal_token (Content event)) as [token|];
    [ destruct (String.eqb token "") | ]; simpl; rewrite ?app_nil_r; reflexivity.
Qed.

(** The loop over the batch: it stops at a member event whose state key
    gives nothing to append, and otherwise accumulates flags, member keys
    and tokens. *)
Lemma needed_loop_spec (nilKey : result (list string)) (events : list Event) :
  forall acc : needed_acc,
    needed_loop nilKey acc events =
    if forallb (state_key_appends nilKey) events then
      Ok {| acc_create := acc_create acc || existsb needs_create events;
            acc_joinrules := acc_joinrules acc || existsb needs_join_rules events;
            acc_powerlevels := acc_powerlevels acc || existsb needs_power_levels events;
            members := members acc ++ flat_map (member_keys nilKey) events;
            thirdpartyinvites := thirdpartyinvites acc ++ flat_map invite_tokens events |}
    else failure_of nilKey.
Proof.
  induction events as [ | event rest IH]; intros acc.
  - simpl. rewrite !orb_false_r, !app_nil_r. destruct acc; reflexivity.
  - cbn [needed_loop forallb existsb flat_map].
    rewrite ?orb_assoc.
    unfold needed_step, state_key_appends at 1, needs_create at 1,
      needs_join_rules at 1, needs_power_levels at 1, member_keys at 1,
      invite_tokens at 1.
    destruct (String.eqb_spec (Type_ event) "m.room.create") as [E1 | N1].
    { rewrite E1. cbn [bind String.eqb Ascii.eqb Bool.eqb andb orb negb app].
      rewrite IH, ?orb_false_r. reflexivity. }
    destruct (String.eqb_spec (Type_ event) "m.room.aliases") as [E2 | N2].
    { rewrite E2. cbn [bind String.eqb Ascii.eqb Bool.eqb andb orb negb app].
      rewrite IH. cbn [acc_create acc_joinrules acc_powerlevels members thirdpartyinvites].
      rewrite ?orb_false_r, ?orb_true_r. reflexivity. }
    destruct (String.eqb_spec (Type_ event) "m.room.member") as [E3 | N3].
    { destruct (state_key_operand nilKey (StateKey event)) as [keys | e | p] eqn:Hop;
        cbn [bind negb orb andb].
      - rewrite IH.
        cbn [acc_create acc_joinrules acc_powerlevels members thirdpartyinvites].
        rewrite ?orb_true_r. rewrite (needsThirdpartyInvite_app (thirdpartyinvites acc)).
        rewrite <- ?app_assoc. reflexivity.
      - destruct (StateKey event); [ discriminate Hop | ].
        simpl in Hop. rewrite Hop. reflexivity.
      - destruct (StateKey event); [ discriminate Hop | ].
        simpl in Hop. rewrite Hop. reflexivity. }
    cbn [bind negb orb andb]. rewrite IH.
    cbn [acc_create acc_joinrules acc_powerlevels members thirdpartyinvites].
    rewrite ?orb_true_r, ?orb_false_r, ?app_nil_r, <- ?app_assoc. reflexivity.
Qed.

Lemma invite_tokens_member_keys (nilKey : result (list string)) (events : list Event) :
  flat_map invite_tokens events <> [] -> flat_map (member_keys nilKey) events <> [].
Proof.
  induction events as [ | event rest IH]; simpl; [ auto | ].
  unfold invite_tokens at 1, member_keys at 1.
  destruct (String.eqb_spec (Type_ event) "m.room.member") as [E | N].
  - rewrite E. simpl. discriminate.
  - simpl. intros H. apply IH in H.
    intros Hnil. apply app_eq_nil in Hnil. destruct Hnil as [_ Hnil]. auto.
Qed.

(** The record [StateNeededForAuth] returns, in terms of the batch. *)
Lemma StateNeededForAuth_spec (nilKey : result (list string)) (events : list Event) :
  StateNeededForAuth nilKey events =
  if forallb (state_key_appends nilKey) events then
    match flat_map invite_tokens events with
    | [] => Panic IndexOutOfRange
    | _ :: _ =>
        Ok {| StateNeeded.Create := existsb needs_create events;
              StateNeeded.JoinRules := existsb needs_join_rules events;
              StateNeeded.PowerLevels := existsb needs_power_levels events;
              StateNeeded.Member :=
                dedup_adjacent (sort_Strings (flat_map (member_keys nilKey) events));
              StateNeeded.ThirdPartyInvite :=
                dedup_adjacent (sort_Strings (flat_map invite_tokens events)) |}
    end
  else failure_of nilKey.
Proof.
  unfold StateNeededForAuth. rewrite needed_loop_spec.
  destruct (forallb (state_key_appends nilKey) events);
    [ | destruct nilKey; reflexivity ].
  cbv [bind]. cbn [acc_create acc_joinrules acc_powerlevels members thirdpartyinvites app orb].
  destruct (flat_map invite_tokens events) as [ | token tokens] eqn:Htokens.
  - destruct (flat_map (member_keys nilKey) events) as [ | key keys]; [ reflexivity | ].
    destruct (unique_dedup_adjacent (sort_Strings (key :: keys)))
      as (n1 & d1 & -> & _).
    { rewrite sort_Strings_nil. discriminate. }
    reflexivity.
  - assert (Hkeys : flat_map (member_keys nilKey) events <> []).
    { apply invite_tokens_member_keys. rewrite Htokens. discriminate. }
    destruct (unique_dedup_adjacent (sort_Strings (flat_map (member_keys nilKey) events)))
      as (n1 & d1 & -> & Hs1 & _).
    { rewrite sort_Strings_nil. exact Hkeys. }
    destruct (unique_dedup_adjacent (sort_Strings (token :: tokens)))
      as (n2 & d2 & -> & Hs2 & _).
    { rewrite sort_Strings_nil. discriminate. }
    cbn [fst snd]. rewrite Hs1, Hs2. reflexivity.
Qed.

Lemma member_keys_In (nilKey : result (list string)) (u : string) (event : Event) :
  In u (member_keys nilKey event) <->
  Type_ event <> "m.room.create" /\ Type_ event <> "m.room.aliases" /\
  (u = Sender event \/
   (Type_ event = "m.room.member" /\
    (StateKey event = Some u \/
     (StateKey event = None /\ exists keys, nilKey = Ok keys /\ In u keys)))).
Proof.
  unfold member_keys.
  destruct (String.eqb_spec (Type_ event) "m.room.create") as [E1 | N1];
    [ simpl; intuition | ].
  destruct (String.eqb_spec (Type_ event) "m.room.aliases") as [E2 | N2];
    [ simpl; intuition | ].
  destruct (String.eqb_spec (Type_ event) "m.room.member") as [E3 | N3].
  - destruct (StateKey event) as [target|]; simpl.
    + split.
      * intros [H | [H | []]]; subst; intuition.
      * intros (_ & _ & [H | [_ [H | [H _]]]]);
          [ auto | injection H as ->; auto | discriminate H ].
    + destruct nilKey as [keys | e | p]; simpl.
      * split.
        -- intros [H | H]; [ subst; intuition | ].
           repeat split; auto. right. split; [ exact E3 | ].
           right. split; [ reflexivity | ]. exists keys. auto.
        -- intros (_ & _ & [H | [_ [H | [_ (keys' & Hk & Hin)]]]]);
             [ auto | discriminate H | ].
           injection Hk as <-. auto.
      * split.
        -- intros [H | []]; subst; intuition.
        -- intros (_ & _ & [H | [_ [H | [_ (keys' & Hk & _)]]]]);
             [ auto | discriminate H | discriminate Hk ].
      * split.
        -- intros [H | []]; subst; intuition.
        -- intros (_ & _ & [H | [_ [H | [_ (keys' & Hk & _)]]]]);
             [ auto | discriminate H | discriminate Hk ].
  - simpl. split.
    + intros [H | []]; subst; intuition.
    + intros (_ & _ & [H | [H _]]); [ auto | contradiction ].
Qed.

(** An event contributes no token, or one token that is not empty. *)
Lemma needsThirdpartyInvite_cases (event : Event) :
  needsThirdpartyInvite [] event = [] \/
  exists token, token <> "" /\ needsThirdpartyInvite [] event = [token].
Proof.
  unfold needsThirdpartyInvite.
  destruct (unmarshal_token (Content event)) as [token|]; [ | auto ].
  destruct (String.eqb_spec token "") as [E | N]; [ auto | ].
  right. exists token. split; [ exact N | reflexivity ].
Qed.

Lemma invite_tokens_In (t : string) (event : Event) :
  In t (invite_tokens event) <->
  Type_ event = "m.room.member" /\ needsThirdpartyInvite [] event = [t].
Proof.
  unfold invite_tokens.
  destruct (String.eqb_spec (Type_ event) "m.room.member") as [E | N].
  - destruct (needsThirdpartyInvite_cases event) as [-> | (token & _ & ->)]; simpl.
    + split; [ intros [] | intros [_ H]; discriminate H ].
    + split.
      * intros [H | []]. subst. auto.
      * intros [_ H]. injection H as ->. auto.
  - simpl. split; [ intros [] | intros [H _]; contradiction ].
Qed.

Lemma forallb_same_elements {A : Type} (f : A -> bool) (l l' : list A) :
  (forall x, In x l <-> In x l') -> forallb f l = forallb f l'.
Proof.
  intros H. apply eq_true_iff_eq. rewrite !forallb_forall.
  split; intros Hf x Hx; apply Hf, H, Hx.
Qed.

Lemma existsb_same_elements {A : Type} (f : A -> bool) (l l' : list A) :
  (forall x, In x l <-> In x l') -> existsb f l = existsb f l'.
Proof.
  intros H. apply eq_true_iff_eq. rewrite !existsb_exists.
  split; intros (x & Hx & Hf); exists x; (split; [ apply H, Hx | exact Hf ]).
Qed.

Lemma flat_map_same_elements {A B : Type} (f : A -> list B) (l l' : list A) :
  (forall x, In x l <-> In x l') ->
  forall y, In y (flat_map f l) <-> In y (flat_map f l').
Proof.
  intros H y. rewrite !in_flat_map.
  split; intros (x & Hx & Hy); exists x; (split; [ apply H, Hx | exact Hy ]).
Qed.

Lemma dedup_sort_same_elements (l l' : list string) :
  (forall x, In x l <-> In x l') ->
  dedup_adjacent (sort_Strings l) = dedup_adjacent (sort_Strings l').
Proof.
  intros H. apply StronglySorted_unique.
  - apply str_lt_StronglySorted, dedup_adjacent_Sorted, sort_Strings_Sorted.
  - apply str_lt_StronglySorted, dedup_adjacent_Sorted, sort_Strings_Sorted.
  - intros x.
    rewrite !dedup_adjacent_In by apply sort_Strings_Sorted.
    rewrite !sort_Strings_In. apply H.
Qed.

Lemma state_keys_append (nilKey : result (list string)) (events : list Event) :
  (forall event, In event events -> Type_ event = "m.room.member" ->
                 StateKey event <> None) ->
  forallb (state_key_appends nilKey) events = true.
Proof.
  intros H. apply forallb_forall. intros event Hin.
  unfold state_key_appends.
  destruct (String.eqb_spec (Type_ event) "m.room.member") as [E | N];
    [ | reflexivity ].
  specialize (H event Hin E).
  destruct (StateKey event); [ reflexivity | contradiction ].
Qed.

Lemma invite_tokens_nonempty (events : list Event) :
  flat_map invite_tokens events <> [] <->
  exists event, In event events /\ Type_ event = "m.room.member" /\
                needsThirdpartyInvite [] event <> [].
Proof.
  split.
  - intros Hne. destruct (flat_map invite_tokens events) as [ | t ts] eqn:E;
      [ contradiction | ].
    assert (Hin : In t (flat_map invite_tokens events))
      by (rewrite E; left; reflexivity).
    apply in_flat_map in Hin. destruct Hin as (event & Hin & Ht).
    apply invite_tokens_In in Ht. destruct Ht as [Htype Ht].
    exists event. rewrite Ht. repeat split; auto. discriminate.
  - intros (event & Hin & Htype & Hne) Hnil.
    destruct (needsThirdpartyInvite_cases event) as [H | (token & _ & H)];
      [ contradiction | ].
    assert (Ht : In token (flat_map invite_tokens events)).
    { apply in_flat_map. exists event. split; [ exact Hin | ].
      apply invite_tokens_In. auto. }
    rewrite Hnil in Ht. destruct Ht.
Qed.

(** X3. On a batch whose member events all have a state key,
    [StateNeededForAuth] returns a record exactly when some member event
    carries a third-party-invite token; when none does, [unique] is handed
    the empty slice of tokens and the call panics with an index out of
    range. *)
Theorem StateNeededForAuth_returns_iff
        (nilKey : result (list string)) (events : list Event)
        (Hkeys : forall event, In event events -> Type_ event = "m.room.member" ->
                               StateKey event <> None) :
  ((exists needed, StateNeededForAuth nilKey events = Ok needed) <->
   (exists event, In event events /\ Type_ event = "m.room.member" /\
                  needsThirdpartyInvite [] event <> [])) /\
  ((forall needed, StateNeededForAuth nilKey events <> Ok needed) ->
   StateNeededForAuth nilKey events = Panic IndexOutOfRange).
Proof.
  rewrite StateNeededForAuth_spec, (state_keys_append nilKey events Hkeys).
  pose proof (invite_tokens_nonempty events) as Htokens.
  destruct (flat_map invite_tokens events) as [ | t ts].
  - split.
    + split; [ intros [needed H]; discriminate H | ].
      intros H. apply Htokens in H. contradiction.
    + intros _. reflexivity.
  - split.
    + split; [ | eauto ].
      intros _. apply Htokens. discriminate.
    + intros H. edestruct H. reflexivity.
Qed.

Lemma StateNeededForAuth_returns_iff_witness :
  exists needed, StateNeededForAuth (Panic NilDereference) invite_batch = Ok needed.
Proof.
  apply (StateNeededForAuth_returns_iff (Panic NilDereference) invite_batch).
  - intros event [<- | [<- | []]]; discriminate.
  - exists third_party_invite.
    split; [ right; left; reflexivity | split; [ reflexivity | discriminate ] ].
Defined.

(** X4. In the record [StateNeededForAuth] returns, the member list is
    strictly increasing, so without duplicates, and holds exactly the
    sender of every event that is neither a create nor an aliases event,
    together with the state key of every member event (for a member event
    without state key: what the line appends for a nil key, if it appends
    anything). *)
Theorem StateNeededForAuth_member_list
        (nilKey : result (list string))
        (events : list Event) (needed : StateNeeded.t)
        (Hneeded : StateNeededForAuth nilKey events = Ok needed) :
  StronglySorted str_lt (StateNeeded.Member needed) /\
  NoDup (StateNeeded.Member needed) /\
  (forall u,
      In u (StateNeeded.Member needed) <->
      exists event,
        In event events /\
        Type_ event <> "m.room.create" /\ Type_ event <> "m.room.aliases" /\
        (u = Sender event \/
         (Type_ event = "m.room.member" /\
          (StateKey event = Some u \/
           (StateKey event = None /\ exists keys, nilKey = Ok keys /\ In u keys))))).
Proof.
  rewrite StateNeededForAuth_spec in Hneeded.
  destruct (forallb (state_key_appends nilKey) events);
    [ | destruct nilKey; discriminate ].
  destruct (flat_map invite_tokens events); [ discriminate | ].
  injection Hneeded as <-. cbn [StateNeeded.Member].
  assert (Hs : StronglySorted str_lt
                 (dedup_adjacent (sort_Strings (flat_map (member_keys nilKey) events))))
    by apply str_lt_StronglySorted, dedup_adjacent_Sorted, sort_Strings_Sorted.
  split; [ exact Hs | split; [ apply StronglySorted_NoDup, Hs | ] ].
  intros u. rewrite dedup_adjacent_In by apply sort_Strings_Sorted.
  rewrite sort_Strings_In, in_flat_map.
  split; intros (event & Hin & H); exists event; (split; [ exact Hin | ]);
    apply member_keys_In; exact H.
Qed.

Lemma StateNeededForAuth_member_list_witness :
  exists needed,
    StateNeededForAuth (Panic NilDereference) invite_batch = Ok needed /\
    StateNeeded.Member needed = [alice; bob] /\
    NoDup (StateNeeded.Member needed).
Proof.
  eexists. split; [ reflexivity | ]. split; [ reflexivity | ].
  exact (proj1 (proj2 (StateNeededForAuth_member_list (Panic NilDereference)
                         invite_batch _ eq_refl))).
Defined.

(** X5. In the record [StateNeededForAuth] returns, the list of
    third-party-invite tokens is strictly increasing, so without duplicates,
    holds exactly the tokens the member events of the batch carry, and
    never the empty token. *)
Theorem StateNeededForAuth_token_list
        (nilKey : result (list string))
        (events : list Event) (needed : StateNeeded.t)
        (Hneeded : StateNeededForAuth nilKey events = Ok needed) :
  StronglySorted str_lt (StateNeeded.ThirdPartyInvite needed) /\
  NoDup (StateNeeded.ThirdPartyInvite needed) /\
  (forall t,
      In t (StateNeeded.ThirdPartyInvite needed) <->
      exists event,
        In event events /\ Type_ event = "m.room.member" /\
        needsThirdpartyInvite [] event = [t]) /\
  ~ In "" (StateNeeded.ThirdPartyInvite needed).
Proof.
  rewrite StateNeededForAuth_spec in Hneeded.
  destruct (forallb (state_key_appends nilKey) events);
    [ | destruct nilKey; discriminate ].
  destruct (flat_map invite_tokens events) as [ | t0 ts] eqn:E; [ discriminate | ].
  rewrite <- E in Hneeded. clear E t0 ts.
  injection Hneeded as <-. cbn [StateNeeded.ThirdPartyInvite].
  assert (Hs : StronglySorted str_lt
                 (dedup_adjacent (sort_Strings (flat_map invite_tokens events))))
    by apply str_lt_StronglySorted, dedup_adjacent_Sorted, sort_Strings_Sorted.
  assert (Hin : forall t,
             In t (dedup_adjacent (sort_Strings (flat_map invite_tokens events))) <->
             exists event,
               In event events /\ Type_ event = "m.room.member" /\
               needsThirdpartyInvite [] event = [t]).
  { intros t. rewrite dedup_adjacent_In by apply sort_Strings_Sorted.
    rewrite sort_Strings_In, in_flat_map.
    split; intros (event & Hev & H); exists event; (split; [ exact Hev | ]);
      apply invite_tokens_In; exact H. }
  split; [ exact Hs | split; [ apply StronglySorted_NoDup, Hs | split; [ exact Hin | ] ] ].
  intros Hempty. apply Hin in Hempty. destruct Hempty as (event & _ & _ & H).
  destruct (needsThirdpartyInvite_cases event) as [H' | (token & Hne & H')];
    rewrite H' in H; [ discriminate H | ].
  injection H as ->. contradiction.
Qed.

Lemma StateNeededForAuth_token_list_witness :
  exists needed,
    StateNeededForAuth (Panic NilDereference) invite_batch = Ok needed /\
    StateNeeded.ThirdPartyInvite needed = ["token"] /\
    ~ In "" (StateNeeded.ThirdPartyInvite needed).
Proof.
  eexists. split; [ reflexivity | ]. split; [ reflexivity | ].
  exact (proj2 (proj2 (proj2 (StateNeededForAuth_token_list (Panic NilDereference)
                                invite_batch _ eq_refl)))).
Defined.



(** X7. What [StateNeededForAuth] does depends only on which events are in
    the batch, not on their order or on repetitions: two batches with the
    same events give the same record or the same panic; so does a batch and
    the batch followed by itself. *)
Theorem StateNeededForAuth_same_events
        (nilKey : result (list string))
        (events events' : list Event)
        (Hsame : forall event, In event events <-> In event events') :
  StateNeededForAuth nilKey events = StateNeededForAuth nilKey events' /\
  StateNeededForAuth nilKey (events ++ events) = StateNeededForAuth nilKey events.
Proof.
  assert (Hext : forall l l' : list Event,
             (forall event, In event l <-> In event l') ->
             StateNeededForAuth nilKey l = StateNeededForAuth nilKey l').
  { intros l l' H. rewrite !StateNeededForAuth_spec.
    rewrite (forallb_same_elements _ l l' H).
    rewrite !(existsb_same_elements _ l l' H).
    rewrite (dedup_sort_same_elements _ _
               (flat_map_same_elements (member_keys nilKey) l l' H)).
    rewrite (dedup_sort_same_elements _ _ (flat_map_same_elements invite_tokens l l' H)).
    pose proof (flat_map_same_elements invite_tokens l l' H) as Ht.
    destruct (flat_map invite_tokens l) as [ | t ts];
      destruct (flat_map invite_tokens l') as [ | t' ts']; try reflexivity.
    - destruct (proj2 (Ht t') (or_introl eq_refl)).
    - destruct (proj1 (Ht t) (or_introl eq_refl)). }
  split; [ apply Hext, Hsame | ].
  apply Hext. intros event. rewrite in_app_iff. intuition.
Qed.

Lemma StateNeededForAuth_same_events_witness :
  StateNeededForAuth (Panic NilDereference) [third_party_invite; message_event] =
  StateNeededForAuth (Panic NilDereference) invite_batch.
Proof.
  apply (StateNeededForAuth_same_events (Panic NilDereference)
           [third_party_invite; message_event] invite_batch).
  intros event. unfold invite_batch. simpl. intuition.
Defined.

(** ** Panics of [Allowed] *)

Lemma bind_Panic {A B : Type} (c : result A) (k : A -> result B) (p : panic_value) :
  bind c k = Panic p -> c = Panic p \/ exists a, c = Ok a /\ k a = Panic p.
Proof.
  destruct c as [a | e | q]; simpl; intros H.
  - right. eauto.
  - discriminate H.
  - left. injection H as ->. reflexivity.
Qed.

Lemma domainFromID_returns (id : string) : returns (domainFromID id).
Proof. unfold returns, domainFromID. destruct (after_colon id); discriminate. Qed.

Lemma createContent_parse_returns (event : Event) : returns (createContent.parse event).
Proof.
  unfold returns, createContent.parse, errorf.
  repeat match goal with
         | |- context [match ?x with _ => _ end] => destruct x
         end; discriminate.
Qed.

Lemma memberContent_parse_returns (event : Event) : returns (memberContent.parse event).
Proof.
  unfold returns, memberContent.parse, errorf.
  repeat match goal with
         | |- context [match ?x with _ => _ end] => destruct x
         end; discriminate.
Qed.

Lemma joinRuleContent_parse_returns (event : Event) :
  returns (joinRuleContent.parse event).
Proof.
  unfold returns, joinRuleContent.parse, errorf.
  repeat match goal with
         | |- context [match ?x with _ => _ end] => destruct x
         end; discriminate.
Qed.

Lemma powerLevelContent_parse_returns (event : Event) :
  returns (powerLevelContent.parse event).
Proof.
  unfold returns, powerLevelContent.parse, errorf.
  destruct (Content event); try discriminate.
  repeat match goal with
         | |- context [match ?x with _ => _ end] => destruct x
         end; discriminate.
Qed.

Lemma load_returns {A : Type} (lookup : result (option Event))
      (absent : result A) (parse : Event -> result A) :
  returns lookup -> returns absent -> (forall event, returns (parse event)) ->
  returns (bind lookup (fun found => match found with
                                     | None => absent
                                     | Some event => parse event
                                     end)).
Proof.
  intros Hl Ha Hp p H. apply bind_Panic in H.
  destruct H as [H | ([event|] & _ & H)].
  - exact (Hl p H).
  - exact (Hp event p H).
  - exact (Ha p H).
Qed.

Lemma createContent_load_returns (authEvents : AuthEvents.t) :
  oracle_returns authEvents -> returns (createContent.load authEvents).
Proof.
  intros (Hc & _). unfold createContent.load.
  apply load_returns; [ exact Hc | discriminate | apply createContent_parse_returns ].
Qed.

Lemma memberContent_load_returns (authEvents : AuthEvents.t) (userID : string) :
  oracle_returns authEvents -> returns (memberContent.load authEvents userID).
Proof.
  intros (_ & _ & _ & Hm). unfold memberContent.load.
  apply load_returns; [ apply Hm | discriminate | apply memberContent_parse_returns ].
Qed.

Lemma joinRuleContent_load_returns (authEvents : AuthEvents.t) :
  oracle_returns authEvents -> returns (joinRuleContent.load authEvents).
Proof.
  intros (_ & Hj & _). unfold joinRuleContent.load.
  apply load_returns; [ exact Hj | discriminate | apply joinRuleContent_parse_returns ].
Qed.

Lemma powerLevelContent_load_returns (authEvents : AuthEvents.t) (creator : string) :
  oracle_returns authEvents -> returns (powerLevelContent.load authEvents creator).
Proof.
  intros (_ & _ & Hp & _). unfold powerLevelContent.load.
  apply load_returns; [ exact Hp | discriminate | apply powerLevelContent_parse_returns ].
Qed.

Lemma idAllowed_returns (c : createContent.t) (id : string) :
  returns (createContent.idAllowed c id).
Proof.
  unfold returns, createContent.idAllowed, createContent.domainAllowed, domainFromID, errorf.
  destruct (after_colon id); simpl; [ | discriminate ].
  destruct (Federate c); [ discriminate | ].
  destruct (after_colon (Creator c)); simpl; [ | discriminate ].
  match goal with |- context [if ?b then _ else _] => destruct b end; discriminate.
Qed.

Lemma domainAllowed_returns (c : createContent.t) (domain : string) :
  returns (createContent.domainAllowed c domain).
Proof.
  unfold returns, createContent.domainAllowed, domainFromID, errorf.
  destruct (Federate c); [ discriminate | ].
  destruct (after_colon (Creator c)); simpl; [ | discriminate ].
  match goal with |- context [if ?b then _ else _] => destruct b end; discriminate.
Qed.

Lemma eventAllower_setup_returns (authEvents : AuthEvents.t) (senderID : string) :
  oracle_returns authEvents -> returns (eventAllower_setup authEvents senderID).
Proof.
  intros Ho p H. unfold eventAllower_setup in H.
  apply bind_Panic in H. destruct H as [H | (c & _ & H)];
    [ exact (createContent_load_returns _ Ho p H) | ].
  apply bind_Panic in H. destruct H as [H | (m & _ & H)];
    [ exact (memberContent_load_returns _ _ Ho p H) | ].
  apply bind_Panic in H. destruct H as [H | (pl & _ & H)];
    [ exact (powerLevelContent_load_returns _ _ Ho p H) | discriminate H ].
Qed.

Lemma defaultAllowed_returns (e : eventAllower) (event : Event) :
  returns (defaultAllowed e event).
Proof.
  intros p H. unfold defaultAllowed in H.
  apply bind_Panic in H. destruct H as [H | (? & _ & H)];
    [ exact (idAllowed_returns _ _ p H) | ].
  unfold errorf in H.
  repeat match type of H with
         | context [if ?b then _ else _] => destruct b
         | context [match ?x with _ => _ end] => destruct x
         end; discriminate H.
Qed.

Lemma membershipAllowed_returns (m : membershipAllower) : returns (membershipAllowed m).
Proof.
  intros p. unfold membershipAllowed.
  destruct (String.eqb (targetID m) (senderID m)).
  - destruct (membershipAllowedSelf_cases m) as [[_ ->] | [_ ->]]; [ discriminate | ].
    destruct (membershipFailed_denied m) as [msg ->]. discriminate.
  - destruct (membershipAllowedOther_cases m) as [[_ ->] | [_ ->]]; [ discriminate | ].
    destruct (membershipFailed_denied m) as [msg ->]. discriminate.
Qed.

Lemma membershipAllower_setup_returns
      (event : Event) (authEvents : AuthEvents.t) (target : string) :
  oracle_returns authEvents -> StateKey event = Some target ->
  returns (membershipAllower_setup event authEvents).
Proof.
  intros Ho Hkey p H. unfold membershipAllower_setup in H. rewrite Hkey in H.
  simpl in H.
  apply bind_Panic in H. destruct H as [H | (? & _ & H)];
    [ exact (memberContent_load_returns _ _ Ho p H) | ].
  apply bind_Panic in H. destruct H as [H | (? & _ & H)];
    [ exact (memberContent_load_returns _ _ Ho p H) | ].
  apply bind_Panic in H. destruct H as [H | (? & _ & H)];
    [ exact (memberContent_parse_returns _ p H) | ].
  apply bind_Panic in H. destruct H as [H | (? & _ & H)];
    [ exact (createContent_load_returns _ Ho p H) | ].
  apply bind_Panic in H. destruct H as [H | (? & _ & H)];
    [ exact (powerLevelContent_load_returns _ _ Ho p H) | ].
  apply bind_Panic in H. destruct H as [H | (? & _ & H)];
    [ exact (joinRuleContent_load_returns _ Ho p H) | discriminate H ].
Qed.

Lemma memberEventAllowed_usual_panic
      (event : Event) (authEvents : AuthEvents.t)
      (create : createContent.t) (newMember : memberContent.t) (target : string)
      (p : panic_value) :
  oracle_returns authEvents -> StateKey event = Some target ->
  memberEventAllowed_usual event authEvents create newMember target = Panic p ->
  p = PanicError (Sprintf "ThirdPartyInvite not implemented" []) /\
  Membership newMember = "invite" /\
  memberContent.ThirdPartyInvite newMember <> None.
Proof.
  intros Ho Hkey H. unfold memberEventAllowed_usual in H.
  apply bind_Panic in H. destruct H as [H | (? & _ & H)];
    [ destruct (idAllowed_returns _ _ p H) | ].
  destruct (String.eqb_spec (Membership newMember) "invite") as [E | N]; simpl in H.
  - destruct (memberContent.ThirdPartyInvite newMember) as [invite|].
    + injection H as <-. repeat split; auto. discriminate.
    + apply bind_Panic in H. destruct H as [H | (m & _ & H)].
      * destruct (membershipAllower_setup_returns _ _ _ Ho Hkey p H).
      * destruct (membershipAllowed_returns m p H).
  - apply bind_Panic in H. destruct H as [H | (m & _ & H)].
    + destruct (membershipAllower_setup_returns _ _ _ Ho Hkey p H).
    + destruct (membershipAllowed_returns m p H).
Qed.

Lemma memberEventAllowed_panic
      (event : Event) (authEvents : AuthEvents.t) (p : panic_value) :
  oracle_returns authEvents ->
  memberEventAllowed event authEvents = Panic p ->
  p = PanicError (Sprintf "ThirdPartyInvite not implemented" []) /\
  exists newMember invite,
    memberContent.parse event = Ok newMember /\
    Membership newMember = "invite" /\
    memberContent.ThirdPartyInvite newMember = Some invite.
Proof.
  intros Ho H. unfold memberEventAllowed in H.
  apply bind_Panic in H. destruct H as [H | (create & _ & H)];
    [ destruct (createContent_load_returns _ Ho p H) | ].
  apply bind_Panic in H. destruct H as [H | (? & _ & H)];
    [ destruct (idAllowed_returns _ _ p H) | ].
  apply bind_Panic in H. destruct H as [H | (newMember & Hparse & H)];
    [ destruct (memberContent_parse_returns _ p H) | ].
  destruct (StateKey event) as [target|] eqn:Hkey; [ | discriminate H ].
  assert (Husual :
            memberEventAllowed_usual event authEvents create newMember target = Panic p ->
            p = PanicError (Sprintf "ThirdPartyInvite not implemented" []) /\
            exists newMember invite,
              memberContent.parse event = Ok newMember /\
              Membership newMember = "invite" /\
              memberContent.ThirdPartyInvite newMember = Some invite).
  { intros Hu.
    destruct (memberEventAllowed_usual_panic _ _ _ _ _ _ Ho Hkey Hu) as (Hp & Hi & Ht).
    split; [ exact Hp | ].
    destruct (memberContent.ThirdPartyInvite newMember) as [invite|] eqn:E;
      [ | contradiction ].
    exists newMember, invite. auto. }
  match type of H with (if ?b then _ else _) = _ => destruct b eqn:Hcond end;
    [ | exact (Husual H) ].
  apply andb_prop in Hcond. destruct Hcond as [Hcond _].
  apply andb_prop in Hcond. destruct Hcond as [Hcond _].
  apply andb_prop in Hcond. destruct Hcond as [Hone _].
  apply Z.eqb_eq in Hone. destruct (len_is_one _ Hone) as [ref Href].
  rewrite Href in H. simpl in H.
  destruct (Z.eqb_spec (len ref) 2) as [Htwo | _]; simpl in H; [ | discriminate H ].
  destruct (len_is_two _ Htwo) as (prev & hashes & ->). simpl in H.
  destruct (unmarshal_string prev); [ | discriminate H ].
  match type of H with (if ?b then _ else _) = _ => destruct b end;
    [ discriminate H | exact (Husual H) ].
Qed.

Lemma checkUserIDs_panic (userIDs : list string) (p : panic_value) :
  checkUserIDs userIDs = Panic p -> p = IndexOutOfRange /\ In "" userIDs.
Proof.
  induction userIDs as [ | userID rest IH]; simpl; [ discriminate | ].
  destruct userID as [ | c s]; simpl.
  - intros H. injection H as <-. auto.
  - match goal with |- context [if ?b then _ else _] => destruct b end;
      [ discriminate | ].
    intros H. destruct (IH H). auto.
Qed.

Lemma powerLevelEventAllowed_panic
      (event : Event) (authEvents : AuthEvents.t) (p : panic_value) :
  oracle_returns authEvents ->
  powerLevelEventAllowed event authEvents = Panic p ->
  p = IndexOutOfRange /\
  exists newPowerLevels,
    powerLevelContent.parse event = Ok newPowerLevels /\
    In "" (map_keys (userLevels newPowerLevels)).
Proof.
  intros Ho H. unfold powerLevelEventAllowed in H.
  apply bind_Panic in H. destruct H as [H | (allower & _ & H)];
    [ destruct (eventAllower_setup_returns _ _ Ho p H) | ].
  apply bind_Panic in H. destruct H as [H | (? & _ & H)];
    [ destruct (defaultAllowed_returns _ _ p H) | ].
  apply bind_Panic in H. destruct H as [H | (newPowerLevels & Hparse & H)];
    [ destruct (powerLevelContent_parse_returns _ p H) | ].
  apply bind_Panic in H. destruct H as [H | (? & _ & H)].
  - destruct (checkUserIDs_panic _ _ H) as [Hp Hin]. eauto.
  - exfalso. cbv zeta in H.
    apply bind_Panic in H. destruct H as [H | (? & _ & H)].
    + destruct (checkLevels_cases (senderLevelUnder (ea_powerlevels allower) event)
                  (lastLoopChecks (ea_powerlevels allower) newPowerLevels))
        as [Ha | [msg Hd]]; rewrite H in *; discriminate.
    + destruct (checkUserLevels_cases (senderLevelUnder (ea_powerlevels allower) event)
                  (lastLoopChecks (ea_powerlevels allower) newPowerLevels))
        as [Ha | [msg Hd]]; rewrite H in *; discriminate.
Qed.

(** X8. With an oracle whose lookups do not panic, [Allowed] panics in two
    places only: on a member event whose content parses to an invite with
    a third-party invite, with the error "ThirdPartyInvite not
    implemented", and on a power-levels event whose new [users] map has the
    empty string as a key, with an index out of range. *)
Theorem Allowed_panics_only_in_two_places
        (event : Event) (authEvents : AuthEvents.t) (p : panic_value)
        (Horacle : oracle_returns authEvents)
        (Hpanic : Allowed event authEvents = Panic p) :
  (Type_ event = "m.room.member" /\
   p = PanicError (Sprintf "ThirdPartyInvite not implemented" []) /\
   exists newMember invite,
     memberContent.parse event = Ok newMember /\
     Membership newMember = "invite" /\
     memberContent.ThirdPartyInvite newMember = Some invite) \/
  (Type_ event = "m.room.power_levels" /\
   p = IndexOutOfRange /\
   exists newPowerLevels,
     powerLevelContent.parse event = Ok newPowerLevels /\
     In "" (map_keys (userLevels newPowerLevels))).
Proof.
  unfold Allowed in Hpanic.
  destruct (String.eqb_spec (Type_ event) "m.room.create") as [E1 | _].
  { exfalso. unfold createEventAllowed in Hpanic.
    apply bind_Panic in Hpanic. destruct Hpanic as [H | (? & _ & H)];
      [ exact (domainFromID_returns _ p H) | ].
    apply bind_Panic in H. destruct H as [H | (? & _ & H)];
      [ exact (domainFromID_returns _ p H) | ].
    unfold errorf in H.
    repeat match type of H with
           | context [if ?b then _ else _] => destruct b
           end; discriminate H. }
  destruct (String.eqb_spec (Type_ event) "m.room.alias") as [E2 | _].
  { exfalso. unfold aliasEventAllowed in Hpanic.
    apply bind_Panic in Hpanic. destruct Hpanic as [H | (? & _ & H)];
      [ exact (domainFromID_returns _ p H) | ].
    apply bind_Panic in H. destruct H as [H | (? & _ & H)];
      [ exact (createContent_load_returns _ Horacle p H) | ].
    apply bind_Panic in H. destruct H as [H | (? & _ & H)];
      [ exact (domainAllowed_returns _ _ p H) | ].
    unfold errorf in H.
    repeat match type of H with
           | context [if ?b then _ else _] => destruct b
           | context [match ?x with _ => _ end] => destruct x
           end; discriminate H. }
  destruct (String.eqb_spec (Type_ event) "m.room.member") as [E3 | _].
  { left. split; [ exact E3 | ].
    exact (memberEventAllowed_panic _ _ _ Horacle Hpanic). }
  destruct (String.eqb_spec (Type_ event) "m.room.power_levels") as [E4 | _].
  { right. split; [ exact E4 | ].
    exact (powerLevelEventAllowed_panic _ _ _ Horacle Hpanic). }
  exfalso.
  destruct (String.eqb_spec (Type_ event) "m.room.redact") as [E5 | _].
  - unfold redactEventAllowed in Hpanic.
    apply bind_Panic in Hpanic. destruct Hpanic as [H | (allower & _ & H)];
      [ exact (eventAllower_setup_returns _ _ Horacle p H) | ].
    apply bind_Panic in H. destruct H as [H | (? & _ & H)];
      [ exact (defaultAllowed_returns _ _ p H) | ].
    apply bind_Panic in H. destruct H as [H | (? & _ & H)];
      [ exact (domainFromID_returns _ p H) | ].
    apply bind_Panic in H. destruct H as [H | (? & _ & H)];
      [ exact (domainFromID_returns _ p H) | ].
    unfold errorf in H.
    repeat match type of H with
           | context [if ?b then _ else _] => destruct b
           end; discriminate H.
  - unfold defaultEventAllowed in Hpanic.
    apply bind_Panic in Hpanic. destruct Hpanic as [H | (allower & _ & H)];
      [ exact (eventAllower_setup_returns _ _ Horacle p H) | ].
    exact (defaultAllowed_returns _ _ p H).
Qed.

Lemma room_returns (rules levels : option Event) (joined : list string) :
  oracle_returns (room rules levels joined).
Proof.
  unfold oracle_returns, returns, room. simpl.
  repeat split; try discriminate.
  intros userID p. destruct (existsb (String.eqb userID) joined); discriminate.
Qed.

Lemma Allowed_panics_only_in_two_places_witness :
  Allowed third_party_invite room50 =
  Panic (PanicError (Sprintf "ThirdPartyInvite not implemented" [])) /\
  Type_ third_party_invite = "m.room.member".
Proof.
  assert (Hpanic : Allowed third_party_invite room50 =
                   Panic (PanicError (Sprintf "ThirdPartyInvite not implemented" [])))
    by reflexivity.
  split; [ exact Hpanic | ].
  destruct (Allowed_panics_only_in_two_places third_party_invite room50 _
              (room_returns _ _ _) Hpanic) as [(Htype & _) | (_ & Hp & _)].
  - exact Htype.
  - discriminate Hp.
Defined.

(** ** The state [Allowed] consults *)

Lemma needs_create_not_create (event : Event) :
  Type_ event <> "m.room.create" -> needs_create event = true.
Proof.
  intros N. unfold needs_create.
  destruct (String.eqb_spec (Type_ event) "m.room.create"); [ contradiction | reflexivity ].
Qed.

Lemma needs_power_levels_other (event : Event) :
  Type_ event <> "m.room.create" -> Type_ event <> "m.room.aliases" ->
  needs_power_levels event = true.
Proof.
  intros N1 N2. unfold needs_power_levels.
  destruct (String.eqb_spec (Type_ event) "m.room.create"); [ contradiction | ].
  destruct (String.eqb_spec (Type_ event) "m.room.aliases"); [ contradiction | reflexivity ].
Qed.

Lemma eventAllower_setup_same
      (nilKey : result (list string)) (event : Event) (a b : AuthEvents.t) :
  Type_ event <> "m.room.create" -> Type_ event <> "m.room.aliases" ->
  Type_ event <> "m.room.member" ->
  same_needed_state nilKey event a b ->
  eventAllower_setup a (Sender event) = eventAllower_setup b (Sender event).
Proof.
  intros N1 N2 N3 (Hc & _ & Hp & Hm).
  unfold eventAllower_setup, createContent.load, memberContent.load,
    powerLevelContent.load.
  rewrite (Hc (needs_create_not_create _ N1)).
  rewrite (Hp (needs_power_levels_other _ N1 N2)).
  rewrite (Hm (Sender event)); [ reflexivity | ].
  apply member_keys_In. auto.
Qed.

(** X9. For an event of any type but [m.room.aliases], [Allowed] consults
    the oracle only on the state that [StateNeededForAuth] collects for the
    event: two oracles that answer alike on the create event, the join
    rules, the power levels and the member entries the event asks for give
    the same result. The third-party-invite lookup is never used. *)
Theorem Allowed_consults_needed_state_only
        (nilKey : result (list string))
        (event : Event) (a b : AuthEvents.t)
        (Htype : Type_ event <> "m.room.aliases")
        (Hsame : same_needed_state nilKey event a b) :
  Allowed event a = Allowed event b.
Proof.
  unfold Allowed.
  destruct (String.eqb_spec (Type_ event) "m.room.create") as [E1 | N1];
    [ reflexivity | ].
  pose proof (needs_create_not_create _ N1) as Hnc.
  destruct (String.eqb_spec (Type_ event) "m.room.alias") as [E2 | N2].
  { unfold aliasEventAllowed, createContent.load.
    destruct Hsame as (Hc & _). rewrite (Hc Hnc). reflexivity. }
  destruct (String.eqb_spec (Type_ event) "m.room.member") as [E3 | N3].
  { destruct Hsame as (Hc & Hj & Hp & Hm).
    assert (Hnj : needs_join_rules event = true)
      by (unfold needs_join_rules; rewrite E3; reflexivity).
    pose proof (needs_power_levels_other _ N1 Htype) as Hnp.
    unfold memberEventAllowed, memberEventAllowed_usual, membershipAllower_setup,
      createContent.load, memberContent.load, powerLevelContent.load,
      joinRuleContent.load.
    rewrite (Hc Hnc), (Hj Hnj), (Hp Hnp).
    rewrite (Hm (Sender event)) by (apply member_keys_In; auto).
    destruct (StateKey event) as [target|] eqn:Hkey; [ | reflexivity ].
    cbn [deref bind].
    rewrite (Hm target) by (apply member_keys_In; auto 6).
    reflexivity. }
  pose proof (eventAllower_setup_same nilKey event a b N1 Htype N3 Hsame) as Hsetup.
  destruct (String.eqb_spec (Type_ event) "m.room.power_levels") as [E4 | N4].
  { unfold powerLevelEventAllowed. rewrite Hsetup. reflexivity. }
  destruct (String.eqb_spec (Type_ event) "m.room.redact") as [E5 | N5].
  { unfold redactEventAllowed. rewrite Hsetup. reflexivity. }
  unfold defaultEventAllowed. rewrite Hsetup. reflexivity.
Qed.

Lemma Allowed_consults_needed_state_only_witness :
  Allowed message_event room50 =
  Allowed message_event (room (Some (join_rules_event "public")) (Some alice50) [alice; bob]).
Proof.
  apply (Allowed_consults_needed_state_only (Panic NilDereference) message_event).
  - discriminate.
  - unfold same_needed_state. repeat split; try reflexivity.
    + discriminate.
    + intros userID [<- | []]. reflexivity.
Defined.

(** ** The common checks *)

Lemma defaultAllowed_cases (e : eventAllower) (event : Event) :
  let senderLevel := userLevel (ea_powerlevels e) (Sender event) in
  let eventLevel := eventLevel (ea_powerlevels e) (Type_ event) (StateKey event) in
  let passes :=
    createContent.idAllowed (ea_create e) (Sender event) = Ok tt /\
    Membership (ea_member e) = "join" /\
    senderLevel >= eventLevel /\
    (forall user, names_user (StateKey event) = Some user -> user = Sender event) in
  (passes /\ defaultAllowed e event = Ok tt) \/
  (~ passes /\ exists err, defaultAllowed e event = Err err).
Proof.
  intros senderLevel eventLevel passes. unfold passes, defaultAllowed, errorf.
  destruct (createContent.idAllowed (ea_create e) (Sender event)) as [[] | err | p] eqn:Hid.
  2:{ right. split; [ intros (H & _); discriminate H | cbn [bind]; eauto ]. }
  2:{ destruct (idAllowed_returns _ _ p Hid). }
  cbn [bind].
  destruct (String.eqb_spec (Membership (ea_member e)) "join") as [Hj | Hj]; cbn [negb];
    [ | right; split; [ intuition | eauto ] ].
  fold senderLevel eventLevel.
  destruct (Z.ltb_spec senderLevel eventLevel) as [Hl | Hl];
    [ right; split; [ intros (_ & _ & H & _); lia | eauto ] | ].
  unfold names_user.
  assert (Hleft : forall r : result unit,
             r = Ok tt ->
             (forall user,
                 match StateKey event with
                 | Some (String c rest) =>
                     if Ascii.eqb c "@" then Some (String c rest) else None
                 | _ => None
                 end = Some user -> user = Sender event) ->
             ((Ok tt = Ok tt :> result unit) /\
              Membership (ea_member e) = "join" /\
              senderLevel >= eventLevel /\
              (forall user,
                  match StateKey event with
                  | Some (String c rest) =>
                      if Ascii.eqb c "@" then Some (String c rest) else None
                  | _ => None
                  end = Some user -> user = Sender event)) /\ r = Ok tt).
  { intros r Hr Hu. repeat split; auto. lia. }
  destruct (StateKey event) as [[ | c rest] | ].
  - left. apply Hleft; [ reflexivity | discriminate ].
  - destruct (Ascii.eqb c "@"); cbn [andb].
    + destruct (String.eqb_spec (String c rest) (Sender event)) as [E | N]; cbn [negb].
      * left. apply Hleft; [ reflexivity | ]. intros user H. injection H as <-. exact E.
      * right. split; [ | eauto ]. intros (_ & _ & _ & H). apply N, H. reflexivity.
    + left. apply Hleft; [ reflexivity | discriminate ].
  - left. apply Hleft; [ reflexivity | discriminate ].
Qed.

(** X10. The common checks pass exactly when the sender satisfies the
    federation policy of the create event, the sender's membership is join,
    the sender's level is at least the level of the event, and a state key
    that starts with [@] is the sender's own ID; otherwise they return an
    error. *)
Theorem defaultAllowed_iff (e : eventAllower) (event : Event) :
  let senderLevel := userLevel (ea_powerlevels e) (Sender event) in
  let eventLevel := eventLevel (ea_powerlevels e) (Type_ event) (StateKey event) in
  let passes :=
    createContent.idAllowed (ea_create e) (Sender event) = Ok tt /\
    Membership (ea_member e) = "join" /\
    senderLevel >= eventLevel /\
    (forall user, names_user (StateKey event) = Some user -> user = Sender event) in
  (admitted (defaultAllowed e event) <-> passes) /\
  (~ passes -> exists err, defaultAllowed e event = Err err).
Proof.
  intros senderLevel eventLevel passes.
  destruct (defaultAllowed_cases e event) as [[Hp Hr] | [Hp [err Hr]]];
    fold senderLevel eventLevel passes in Hp; unfold admitted; rewrite Hr.
  - split; [ split; auto | contradiction ].
  - split; [ split; [ discriminate | contradiction ] | eauto ].
Qed.

(** X11. An event of a type other than create, alias and member is admitted
    only if the common checks pass: the oracle has a create event, the
    sender is joined, and the sender's level is at least the level of the
    event. *)
Theorem Allowed_requires_common_checks
        (event : Event) (authEvents : AuthEvents.t)
        (Hcreate : Type_ event <> "m.room.create")
        (Halias : Type_ event <> "m.room.alias")
        (Hmember : Type_ event <> "m.room.member")
        (Hadmitted : admitted (Allowed event authEvents)) :
  exists allower,
    eventAllower_setup authEvents (Sender event) = Ok allower /\
    defaultAllowed allower event = Ok tt /\
    Membership (ea_member allower) = "join" /\
    userLevel (ea_powerlevels allower) (Sender event) >=
    eventLevel (ea_powerlevels allower) (Type_ event) (StateKey event).
Proof.
  assert (Hsetup : exists allower,
             eventAllower_setup authEvents (Sender event) = Ok allower /\
             defaultAllowed allower event = Ok tt).
  { unfold admitted, Allowed in Hadmitted.
    destruct (String.eqb_spec (Type_ event) "m.room.create"); [ contradiction | ].
    destruct (String.eqb_spec (Type_ event) "m.room.alias"); [ contradiction | ].
    destruct (String.eqb_spec (Type_ event) "m.room.member"); [ contradiction | ].
    unfold powerLevelEventAllowed, redactEventAllowed, defaultEventAllowed in Hadmitted.
    destruct (eventAllower_setup authEvents (Sender event)) as [allower | | ];
      [ exists allower; split; [ reflexivity | ]
      | repeat match type of Hadmitted with
               | context [if ?b then _ else _] => destruct b
               end; discriminate Hadmitted .. ].
    cbn [bind] in Hadmitted.
    destruct (defaultAllowed allower event) as [[] | | ]; [ reflexivity | | ];
      repeat match type of Hadmitted with
             | context [if ?b then _ else _] => destruct b
             end; discriminate Hadmitted. }
  destruct Hsetup as (allower & Hsetup & Hdefault).
  exists allower. split; [ exact Hsetup | split; [ exact Hdefault | ] ].
  destruct (defaultAllowed_cases allower event) as [[Hp _] | [_ [err Hr]]].
  - destruct Hp as (_ & Hj & Hl & _). auto.
  - rewrite Hr in Hdefault. discriminate Hdefault.
Qed.

Lemma Allowed_requires_common_checks_witness :
  exists allower,
    eventAllower_setup room50 (Sender message_event) = Ok allower /\
    defaultAllowed allower message_event = Ok tt /\
    Membership (ea_member allower) = "join" /\
    userLevel (ea_powerlevels allower) (Sender message_event) >=
    eventLevel (ea_powerlevels allower) (Type_ message_event) (StateKey message_event).
Proof.
  apply (Allowed_requires_common_checks message_event room50);
    try discriminate.
  reflexivity.
Defined.

(** X12. A redact event whose common checks pass is admitted exactly when
    the sender and the redacted event have server domains and either the
    domains are equal or the sender's level is at least the redact level;
    otherwise it is denied. *)
Theorem redactEventAllowed_iff
        (event : Event) (authEvents : AuthEvents.t) (allower : eventAllower)
        (Hsetup : eventAllower_setup authEvents (Sender event) = Ok allower)
        (Hcommon : defaultAllowed allower event = Ok tt) :
  let passes :=
    exists senderDomain redactDomain,
      domainFromID (Sender event) = Ok senderDomain /\
      domainFromID (Redacts event) = Ok redactDomain /\
      (senderDomain = redactDomain \/
       userLevel (ea_powerlevels allower) (Sender event) >=
       redactLevel (ea_powerlevels allower)) in
  (admitted (redactEventAllowed event authEvents) <-> passes) /\
  (~ passes -> denied (redactEventAllowed event authEvents)).
Proof.
  intros passes. unfold passes, admitted, denied, redactEventAllowed.
  rewrite Hsetup. cbn [bind]. rewrite Hcommon. cbn [bind].
  unfold domainFromID, errorf.
  destruct (after_colon (Sender event)) as [sd|]; cbn [bind].
  2:{ split; [ split; [ discriminate | intros (? & ? & H & _); discriminate H ] | eauto ]. }
  destruct (after_colon (Redacts event)) as [rd|]; cbn [bind].
  2:{ split; [ split; [ discriminate | intros (? & ? & _ & H & _); discriminate H ] | eauto ]. }
  destruct (String.eqb_spec sd rd) as [E | N].
  { split; [ split; [ intros _; exists sd, rd; auto | reflexivity ] | ].
    intros H. destruct H. exists sd, rd. auto. }
  destruct (Z.geb_spec (userLevel (ea_powerlevels allower) (Sender event))
              (redactLevel (ea_powerlevels allower))) as [Hl | Hl].
  { split; [ split; [ intros _; exists sd, rd; repeat split; right; lia | reflexivity ] | ].
    intros H. destruct H. exists sd, rd. repeat split. right. lia. }
  split; [ split; [ discriminate | ] | eauto ].
  intros (sd' & rd' & H1 & H2 & [E | Hge]).
  - injection H1 as <-. injection H2 as <-. contradiction.
  - lia.
Qed.

Lemma redactEventAllowed_iff_witness :
  eventAllower_setup room50 (Sender redact_event) = Ok allower50 /\
  admitted (redactEventAllowed redact_event room50).
Proof.
  assert (Hsetup : eventAllower_setup room50 (Sender redact_event) = Ok allower50)
    by reflexivity.
  split; [ exact Hsetup | ].
  apply (redactEventAllowed_iff redact_event room50 allower50 Hsetup eq_refl).
  exists "a", "b". repeat split. right. vm_compute. discriminate.
Defined.

(** X13. An error of the oracle on the lookup of the create event is what
    [Allowed] returns, unchanged, for every event that is neither a create
    nor an alias event. *)
Theorem create_lookup_error_is_returned
        (event : Event) (authEvents : AuthEvents.t) (err : error)
        (Hcreate : Type_ event <> "m.room.create")
        (Halias : Type_ event <> "m.room.alias")
        (Herror : AuthEvents.Create authEvents = Err err) :
  Allowed event authEvents = Err err.
Proof.
  unfold Allowed.
  destruct (String.eqb_spec (Type_ event) "m.room.create"); [ contradiction | ].
  destruct (String.eqb_spec (Type_ event) "m.room.alias"); [ contradiction | ].
  unfold memberEventAllowed, powerLevelEventAllowed, redactEventAllowed,
    defaultEventAllowed, eventAllower_setup, createContent.load.
  rewrite Herror. cbn [bind].
  repeat match goal with
         | |- context [if ?b then _ else _] => destruct b
         end; reflexivity.
Qed.

Lemma create_lookup_error_is_returned_witness :
  Allowed message_event broken_store = Err (OracleError "database is closed").
Proof.
  apply (create_lookup_error_is_returned message_event broken_store);
    [ discriminate | discriminate | reflexivity ].
Defined.

(** ** Rows of the transition machine *)

Lemma membershipAllowed_other (m : membershipAllower) :
  targetID m <> senderID m ->
  (admitted (membershipAllowed m) <-> otherTransitionTable m) /\
  (~ otherTransitionTable m -> membershipAllowed m = membershipFailed m).
Proof.
  intros Hother. unfold membershipAllowed.
  destruct (String.eqb_spec (targetID m) (senderID m)) as [E | _]; [ contradiction | ].
  destruct (membershipAllowedOther_cases m) as [[Ht Hr] | [Ht Hr]]; rewrite Hr.
  - split; [ split; [ auto | reflexivity ] | contradiction ].
  - pose proof (membershipFailed_denied m) as Hd.
    split; [ split; [ | contradiction ] | reflexivity ].
    intros Ha. destruct (denied_not_admitted _ Hd Ha).
Qed.

(** X14. A user removes another user who is not banned (a kick) exactly
    when the sender is joined, the sender's level is at least the kick
    level, and it is strictly greater than the target's level. *)
Theorem kick_requires_level_above_target
        (m : membershipAllower)
        (Hother : targetID m <> senderID m)
        (Hleave : Membership (newMember m) = "leave")
        (Hold : Membership (oldMember m) <> "ban") :
  let S := userLevel (powerLevels m) (senderID m) in
  let T := userLevel (powerLevels m) (targetID m) in
  let condition :=
    Membership (senderMember m) = "join" /\ S >= kickLevel (powerLevels m) /\ S > T in
  (admitted (membershipAllowed m) <-> condition) /\
  (~ condition -> denied (membershipAllowed m)).
Proof.
  intros S T condition.
  destruct (membershipAllowed_other m Hother) as [Hiff Hfail].
  assert (Htable : otherTransitionTable m <-> condition).
  { unfold otherTransitionTable, condition, S, T. rewrite Hleave.
    intuition (congruence || lia). }
  split; [ rewrite Hiff; exact Htable | ].
  intros Hn. rewrite Hfail by (rewrite Htable; exact Hn).
  apply membershipFailed_denied.
Qed.

Lemma kick_requires_level_above_target_witness :
  admitted (membershipAllowed (alice_changes_bob "join" "leave")).
Proof.
  apply (kick_requires_level_above_target (alice_changes_bob "join" "leave")).
  - simpl. discriminate.
  - reflexivity.
  - simpl. discriminate.
  - vm_compute. repeat split; discriminate.
Defined.

(** X15. A user lifts the ban of another user exactly when the sender is
    joined and the sender's level is at least the ban level; the target's
    level plays no part. *)
Theorem unban_requires_ban_level
        (m : membershipAllower)
        (Hother : targetID m <> senderID m)
        (Hleave : Membership (newMember m) = "leave")
        (Hold : Membership (oldMember m) = "ban") :
  let S := userLevel (powerLevels m) (senderID m) in
  let condition :=
    Membership (senderMember m) = "join" /\ S >= banLevel (powerLevels m) in
  (admitted (membershipAllowed m) <-> condition) /\
  (~ condition -> denied (membershipAllowed m)).
Proof.
  intros S condition.
  destruct (membershipAllowed_other m Hother) as [Hiff Hfail].
  assert (Htable : otherTransitionTable m <-> condition).
  { unfold otherTransitionTable, condition, S. rewrite Hleave, Hold.
    intuition (congruence || lia). }
  split; [ rewrite Hiff; exact Htable | ].
  intros Hn. rewrite Hfail by (rewrite Htable; exact Hn).
  apply membershipFailed_denied.
Qed.

Lemma unban_requires_ban_level_witness :
  admitted (membershipAllowed (alice_changes_bob "ban" "leave")).
Proof.
  apply (unban_requires_ban_level (alice_changes_bob "ban" "leave")).
  - simpl. discriminate.
  - reflexivity.
  - reflexivity.
  - vm_compute. repeat split; discriminate.
Defined.

(** X16. A user invites another user exactly when the sender is joined, the
    target's membership is leave or invite, and the sender's level is at
    least the invite level: a banned or joined user is not invited. *)
Theorem invite_requires_left_target
        (m : membershipAllower)
        (Hother : targetID m <> senderID m)
        (Hinvite : Membership (newMember m) = "invite") :
  let S := userLevel (powerLevels m) (senderID m) in
  let old := Membership (oldMember m) in
  let condition :=
    Membership (senderMember m) = "join" /\
    (old = "leave" \/ old = "invite") /\
    S >= inviteLevel (powerLevels m) in
  (admitted (membershipAllowed m) <-> condition) /\
  (~ condition -> denied (membershipAllowed m)).
Proof.
  intros S old condition.
  destruct (membershipAllowed_other m Hother) as [Hiff Hfail].
  assert (Htable : otherTransitionTable m <-> condition).
  { unfold otherTransitionTable, condition, S, old. rewrite Hinvite.
    intuition (congruence || lia). }
  split; [ rewrite Hiff; exact Htable | ].
  intros Hn. rewrite Hfail by (rewrite Htable; exact Hn).
  apply membershipFailed_denied.
Qed.

Lemma invite_requires_left_target_witness :
  admitted (membershipAllowed (alice_changes_bob "leave" "invite")) /\
  denied (membershipAllowed (alice_changes_bob "ban" "invite")).
Proof.
  split.
  - apply (invite_requires_left_target (alice_changes_bob "leave" "invite")).
    + simpl. discriminate.
    + reflexivity.
    + vm_compute. repeat split; [ left; reflexivity | discriminate ].
  - apply (invite_requires_left_target (alice_changes_bob "ban" "invite")).
    + simpl. discriminate.
    + reflexivity.
    + simpl. intros (_ & [H | H] & _); discriminate H.
Defined.

(** X17. A sender who is not joined changes the membership of no other
    user: whatever the new membership and the levels are, the machine
    denies the event with the message that the sender is not in the
    room. *)
Theorem sender_outside_room_is_denied
        (m : membershipAllower)
        (Hother : targetID m <> senderID m)
        (Hout : Membership (senderMember m) <> "join") :
  membershipAllowed m =
  Err (NotAllowed (Sprintf "sender %q is not in the room" [ArgS (senderID m)])).
Proof.
  destruct (membershipAllowed_other m Hother) as [_ Hfail].
  rewrite Hfail.
  - unfold membershipFailed, errorf.
    destruct (String.eqb_spec (senderID m) (targetID m)) as [E | _];
      [ symmetry in E; contradiction | ].
    destruct (String.eqb_spec (Membership (senderMember m)) "join");
      [ contradiction | reflexivity ].
  - unfold otherTransitionTable. intros [H _]. contradiction.
Qed.

Lemma sender_outside_room_is_denied_witness :
  membershipAllowed (bob_changes_alice "ban") =
  Err (NotAllowed (Sprintf "sender %q is not in the room" [ArgS bob])).
Proof.
  apply (sender_outside_room_is_denied (bob_changes_alice "ban")).
  - simpl. discriminate.
  - simpl. discriminate.
Defined.

(** X18. On their own membership a user can only join or leave, and only
    from the memberships leave, invite and join: a banned user does not
    lift the ban, and nobody bans, invites or knocks themselves. *)
Theorem self_transition_limits
        (m : membershipAllower) (Hself : targetID m = senderID m) :
  (admitted (membershipAllowed m) ->
   (Membership (newMember m) = "join" \/ Membership (newMember m) = "leave") /\
   (Membership (oldMember m) = "leave" \/ Membership (oldMember m) = "invite" \/
    Membership (oldMember m) = "join")) /\
  (Membership (oldMember m) = "ban" -> denied (membershipAllowed m)).
Proof.
  unfold membershipAllowed.
  destruct (String.eqb_spec (targetID m) (senderID m)) as [_ | N]; [ | contradiction ].
  pose proof (membershipFailed_denied m) as Hd.
  destruct (membershipAllowedSelf_cases m) as [[Ht Hr] | [Ht Hr]]; rewrite Hr.
  - unfold selfTransitionTable in Ht. split.
    + intros _. intuition.
    + intros Hban. rewrite Hban in Ht. exfalso. intuition discriminate.
  - split; [ | intros _; exact Hd ].
    intros Ha. destruct (denied_not_admitted _ Hd Ha).
Qed.

Lemma self_transition_limits_witness :
  denied (membershipAllowed (banned_bob "join")) /\
  denied (membershipAllowed (banned_bob "leave")).
Proof.
  split.
  - apply (self_transition_limits (banned_bob "join")); reflexivity.
  - apply (self_transition_limits (banned_bob "leave")); reflexivity.
Defined.

(** ** The user IDs of new power levels *)

(** X19. Over keys none of which is the empty string, the check of the
    user IDs passes exactly when every key starts with [@] and has a [:],
    and otherwise it is a denial that names a key of the list that does
    not. *)
Theorem checkUserIDs_iff
        (userIDs : list string) (Hnonempty : ~ In "" userIDs) :
  (admitted (checkUserIDs userIDs) <->
   forall userID, In userID userIDs -> isValidUserID userID = Ok true) /\
  (~ admitted (checkUserIDs userIDs) ->
   exists userID,
     In userID userIDs /\ isValidUserID userID = Ok false /\
     checkUserIDs userIDs = Err (NotAllowed (Sprintf "Not a valid user ID: %q" [ArgS userID]))).
Proof.
  unfold admitted.
  induction userIDs as [ | userID rest IH].
  - split; [ split; [ intros _ ? [] | reflexivity ] | intros H; destruct H; reflexivity ].
  - assert (Hrest : ~ In "" rest) by (intros H; apply Hnonempty; right; exact H).
    destruct (IH Hrest) as [IHiff IHden]. clear IH.
    destruct userID as [ | c s]; [ destruct Hnonempty; left; reflexivity | ].
    cbn [checkUserIDs]. rewrite isValidUserID_nonempty. cbn [bind].
    destruct (Ascii.eqb c "@" && has_byte ":" (String c s)) eqn:Hvalid; cbn [negb].
    + split.
      * rewrite IHiff. split.
        -- intros H userID [<- | Hin]; [ rewrite isValidUserID_nonempty, Hvalid; reflexivity | auto ].
        -- intros H userID Hin. apply H. right. exact Hin.
      * intros Hn. destruct (IHden Hn) as (userID & Hin & Hinvalid & Hr).
        exists userID. split; [ right; exact Hin | auto ].
    + split.
      * split; [ discriminate | ].
        intros H. specialize (H (String c s) (or_introl eq_refl)).
        rewrite isValidUserID_nonempty, Hvalid in H. discriminate H.
      * intros _. exists (String c s).
        split; [ left; reflexivity | ].
        rewrite isValidUserID_nonempty, Hvalid. split; reflexivity.
Qed.

Lemma checkUserIDs_iff_witness :
  admitted (checkUserIDs [alice; bob]).
Proof.
  apply (checkUserIDs_iff [alice; bob]).
  - simpl. intros [H | [H | []]]; discriminate H.
  - intros userID [<- | [<- | []]]; reflexivity.
Defined.

(** ** What the power-levels rule checks *)

(** X20. For a power-levels event that passes the common checks and whose
    new user IDs are well-formed, as the rule is written only the six
    scalar levels ban, invite, kick, redact, state_default and
    events_default decide: the event is admitted exactly when for each of
    them that changes the sender's level is strictly above the old value
    and at least the new one, and an event that leaves the six as they are
    is admitted whatever its users and events maps and users_default
    are. *)
Theorem power_levels_rule_checks_scalars_only
        (event : Event) (authEvents : AuthEvents.t)
        (allower : eventAllower) (newPowerLevels : powerLevelContent.t)
        (Hsetup : eventAllower_setup authEvents (Sender event) = Ok allower)
        (Hcommon : defaultAllowed allower event = Ok tt)
        (Hparse : powerLevelContent.parse event = Ok newPowerLevels)
        (Hids : checkUserIDs (map_keys (userLevels newPowerLevels)) = Ok tt) :
  let S := userLevel (ea_powerlevels allower) (Sender event) in
  let scalars := scalarChecks (ea_powerlevels allower) newPowerLevels in
  (admitted (powerLevelEventAllowed event authEvents) <->
   forall old new, In (old, new) scalars -> old <> new -> S > old /\ S >= new) /\
  ((forall old new, In (old, new) scalars -> old = new) ->
   admitted (powerLevelEventAllowed event authEvents)).
Proof.
  intros S scalars.
  pose proof (powerLevelEventAllowed_scalars event authEvents allower newPowerLevels
                Hsetup Hcommon Hparse Hids) as Hiff.
  cbv zeta in Hiff. fold S scalars in Hiff.
  split; [ exact Hiff | ].
  intros Hsame. apply Hiff. intros old new Hin Hne.
  destruct Hne. apply Hsame, Hin.
Qed.

Lemma power_levels_rule_checks_scalars_only_witness :
  eventAllower_setup room50 (Sender raise_name_level) = Ok allower50 /\
  powerLevelContent.parse raise_name_level = Ok levels_name_raised /\
  admitted (powerLevelEventAllowed raise_name_level room50).
Proof.
  assert (Hsetup : eventAllower_setup room50 (Sender raise_name_level) = Ok allower50)
    by reflexivity.
  assert (Hparse : powerLevelContent.parse raise_name_level = Ok levels_name_raised)
    by reflexivity.
  split; [ exact Hsetup | split; [ exact Hparse | ] ].
  apply (power_levels_rule_checks_scalars_only raise_name_level room50 allower50
           levels_name_raised Hsetup eq_refl Hparse eq_refl).
  intros old new Hin. simpl in Hin.
  repeat destruct Hin as [Hin | Hin]; try (injection Hin as <- <-; reflexivity).
  destruct Hin.
Defined.

(** ** The create and alias rules *)

(** X21. A create event is admitted exactly when the room ID and the sender
    have the same server domain and the event has no prior events;
    otherwise it is denied. The oracle is not consulted. *)
Theorem create_event_first_and_local
        (event : Event) (authEvents : AuthEvents.t)
        (Htype : Type_ event = "m.room.create") :
  let passes :=
    exists domain,
      domainFromID (RoomID event) = Ok domain /\
      domainFromID (Sender event) = Ok domain /\
      PrevEvents event = [] in
  (admitted (Allowed event authEvents) <-> passes) /\
  (~ passes -> denied (Allowed event authEvents)) /\
  (forall other, Allowed event other = Allowed event authEvents).
Proof.
  intros passes.
  assert (HA : forall o, Allowed event o = createEventAllowed event o)
    by (intros o; unfold Allowed; rewrite Htype; reflexivity).
  split; [ | split; [ | intros other; rewrite !HA; reflexivity ] ];
    rewrite HA; unfold passes, admitted, denied, createEventAllowed, domainFromID, errorf.
  - destruct (after_colon (RoomID event)) as [rd|]; cbn [bind].
    2:{ split; [ discriminate | intros (? & H & _); discriminate H ]. }
    destruct (after_colon (Sender event)) as [sd|]; cbn [bind].
    2:{ split; [ discriminate | intros (? & _ & H & _); discriminate H ]. }
    destruct (String.eqb_spec sd rd) as [E | N]; cbn [negb].
    + destruct (PrevEvents event) as [ | prev prevs]; simpl.
      * split; [ intros _; exists rd; subst; auto | reflexivity ].
      * unfold len. cbn [length].
        destruct (Z.gtb_spec (Z.of_nat (S (length prevs))) 0) as [_ | L]; [ | lia ].
        split; [ discriminate | intros (? & _ & _ & H); discriminate H ].
    + split; [ discriminate | ].
      intros (d & H1 & H2 & _). injection H1 as <-. injection H2 as <-. contradiction.
  - destruct (after_colon (RoomID event)) as [rd|]; cbn [bind]; [ | eauto ].
    destruct (after_colon (Sender event)) as [sd|]; cbn [bind]; [ | eauto ].
    destruct (String.eqb_spec sd rd) as [E | N]; cbn [negb]; [ | eauto ].
    destruct (PrevEvents event) as [ | prev prevs]; simpl.
    + intros H. destruct H. exists rd. subst. auto.
    + unfold len. cbn [length].
      destruct (Z.gtb_spec (Z.of_nat (S (length prevs))) 0) as [_ | L]; [ eauto | lia ].
Qed.

Lemma create_event_first_and_local_witness :
  admitted (Allowed create_event new_room).
Proof.
  refine (proj2 (proj1 (create_event_first_and_local create_event new_room eq_refl)) _).
  exists "a". repeat split.
Defined.

(** X22. An event of type [m.room.alias] is admitted exactly when the
    sender has a server domain, the create event loads, the domain
    satisfies its federation policy, and the state key is that domain;
    the sender's membership and level play no part. *)
Theorem alias_event_keyed_by_sender_domain
        (event : Event) (authEvents : AuthEvents.t)
        (Htype : Type_ event = "m.room.alias") :
  admitted (Allowed event authEvents) <->
  exists senderDomain create,
    domainFromID (Sender event) = Ok senderDomain /\
    createContent.load authEvents = Ok create /\
    createContent.domainAllowed create senderDomain = Ok tt /\
    StateKey event = Some senderDomain.
Proof.
  assert (HA : Allowed event authEvents = aliasEventAllowed event authEvents)
    by (unfold Allowed; rewrite Htype; reflexivity).
  rewrite HA. unfold admitted, aliasEventAllowed, errorf.
  destruct (domainFromID (Sender event)) as [sd | | ]; cbn [bind].
  2,3: split; [ discriminate | intros (? & ? & H & _); discriminate H ].
  destruct (createContent.load authEvents) as [create | | ]; cbn [bind].
  2,3: split; [ discriminate | intros (? & ? & _ & H & _); discriminate H ].
  destruct (createContent.domainAllowed create sd) as [[] | | ] eqn:Hd; cbn [bind].
  2,3: split; [ discriminate | ];
    intros (sd' & c' & H1 & H2 & H3 & _);
    injection H1 as <-; injection H2 as <-; rewrite Hd in H3; discriminate H3.
  destruct (StateKey event) as [key|].
  - destruct (String.eqb_spec sd key) as [E | N]; cbn [negb].
    + split; [ intros _; exists sd, create; subst; auto | reflexivity ].
    + split; [ discriminate | ].
      intros (sd' & c' & H1 & _ & _ & H4).
      injection H1 as <-. injection H4 as <-. contradiction.
  - split; [ discriminate | intros (? & ? & _ & _ & _ & H); discriminate H ].
Qed.

Lemma alias_event_keyed_by_sender_domain_witness :
  admitted (Allowed alias_event new_room).
Proof.
  apply (alias_event_keyed_by_sender_domain alias_event new_room eq_refl).
  exists "c", {| Creator := alice; Federate := true; eventID := "$create:a" |}.
  repeat split.
Defined.

(** ** Member events without state key *)

(** X23. A member event without state key is never admitted: with an
    oracle that does not panic the rule returns an error, and past the
    loading of the create event, the federation check of the sender and the
    parsing of the content the error is the denial that a member event
    must be a state event. The dereference of the state key in the set-up
    of the machine is not reached. *)
Theorem member_event_needs_state_key
        (event : Event) (authEvents : AuthEvents.t)
        (Htype : Type_ event = "m.room.member")
        (Hkey : StateKey event = None) :
  ~ admitted (Allowed event authEvents) /\
  (oracle_returns authEvents -> exists err, Allowed event authEvents = Err err) /\
  (forall create newMember,
      createContent.load authEvents = Ok create ->
      createContent.idAllowed create (Sender event) = Ok tt ->
      memberContent.parse event = Ok newMember ->
      Allowed event authEvents =
      Err (NotAllowed (Sprintf "member must be a state event" []))).
Proof.
  assert (HA : Allowed event authEvents = memberEventAllowed event authEvents)
    by (unfold Allowed; rewrite Htype; reflexivity).
  rewrite HA. unfold admitted, memberEventAllowed, errorf. rewrite Hkey.
  split; [ | split ].
  - destruct (createContent.load authEvents) as [create | | ]; cbn [bind];
      try discriminate.
    destruct (createContent.idAllowed create (Sender event)) as [[] | | ]; cbn [bind];
      try discriminate.
    destruct (memberContent.parse event); cbn [bind]; discriminate.
  - intros Horacle.
    destruct (createContent.load authEvents) as [create | err | p] eqn:Hload;
      cbn [bind]; [ | eauto | destruct (createContent_load_returns _ Horacle _ Hload) ].
    destruct (createContent.idAllowed create (Sender event)) as [[] | err | p] eqn:Hid;
      cbn [bind]; [ | eauto | destruct (idAllowed_returns _ _ _ Hid) ].
    destruct (memberContent.parse event) as [nm | err | p] eqn:Hparse;
      cbn [bind]; [ eauto | eauto | destruct (memberContent_parse_returns _ _ Hparse) ].
  - intros create newMember -> Hid ->. cbn [bind]. rewrite Hid. reflexivity.
Qed.

Lemma member_event_needs_state_key_witness :
  Allowed member_without_key new_room =
  Err (NotAllowed (Sprintf "member must be a state event" [])).
Proof.
  apply (proj2 (proj2 (member_event_needs_state_key member_without_key new_room
                         eq_refl eq_refl))
           {| Creator := alice; Federate := true; eventID := "$create:a" |}
           {| Membership := "join"; memberContent.ThirdPartyInvite := None |});
    reflexivity.
Defined.

(** ** The first-join block and self-transitions of events *)

(** X24. On a join of the creator for themselves with exactly one prior
    event, a reference that is not a pair, or whose first component is
    neither a string nor null, is denied as unparsable; the usual process
    is not tried. *)
Theorem first_join_reference_must_parse
        (event : Event) (authEvents : AuthEvents.t)
        (create : createContent.t) (newMember : memberContent.t)
        (ref : list json)
        (Htype : Type_ event = "m.room.member")
        (Hload : createContent.load authEvents = Ok create)
        (Hsender : createContent.idAllowed create (Sender event) = Ok tt)
        (Hparse : memberContent.parse event = Ok newMember)
        (Hjoin : Membership newMember = "join")
        (Hkey : StateKey event = Some (Sender event))
        (Hcreator : Creator create = Sender event)
        (Hprev : PrevEvents event = [ref])
        (Hbad : len ref <> 2 \/
                exists first hashes, ref = [first; hashes] /\
                                     unmarshal_string first = None) :
  Allowed event authEvents = Err (NotAllowed (Sprintf "unparsable prev event" [])).
Proof.
  unfold Allowed. rewrite Htype. cbn [String.eqb Ascii.eqb Bool.eqb].
  unfold memberEventAllowed. rewrite Hload. cbn [bind]. rewrite Hsender. cbn [bind].
  rewrite Hparse. cbn [bind]. rewrite Hkey, Hprev, Hjoin, Hcreator.
  rewrite !String.eqb_refl.
  change (len [ref] =? 1) with true. cbn [andb index Z.ltb Z.compare Z.to_nat nth_error bind].
  destruct Hbad as [Hlen | (first & hashes & -> & Hfirst)].
  - destruct (Z.eqb_spec (len ref) 2) as [E | _]; [ contradiction | reflexivity ].
  - change (len [first; hashes] =? 2) with true.
    cbn [negb index Z.ltb Z.compare Z.to_nat nth_error bind].
    rewrite Hfirst. reflexivity.
Qed.

Lemma first_join_reference_must_parse_witness :
  Allowed creator_join_long_reference new_room =
  Err (NotAllowed (Sprintf "unparsable prev event" [])).
Proof.
  apply (first_join_reference_must_parse creator_join_long_reference new_room
           {| Creator := alice; Federate := true; eventID := "$create:a" |}
           {| Membership := "join"; memberContent.ThirdPartyInvite := None |}
           [JString "$create:a"; JObject []; JString "extra"]);
    try reflexivity.
  left. vm_compute. discriminate.
Defined.

(** When the target is not the creator the first-join block is skipped. *)
Lemma memberEventAllowed_machine_not_creator
      (event : Event) (authEvents : AuthEvents.t) (m : membershipAllower) :
  Type_ event = "m.room.member" ->
  membershipAllower_setup event authEvents = Ok m ->
  createContent.idAllowed (create m) (senderID m) = Ok tt ->
  createContent.idAllowed (create m) (targetID m) = Ok tt ->
  Creator (create m) <> targetID m ->
  Membership (newMember m) <> "invite" \/
  memberContent.ThirdPartyInvite (newMember m) = None ->
  Allowed event authEvents = membershipAllowed m.
Proof.
  intros Htype Hsetup Hsender Htarget Hcreator Hthird.
  destruct (membershipAllower_setup_fields _ _ _ Hsetup)
    as (Hkey & Hid & Hload & Hparse).
  unfold Allowed. rewrite Htype. cbn [String.eqb Ascii.eqb Bool.eqb].
  unfold memberEventAllowed. rewrite Hload. cbn [bind].
  rewrite <- Hid, Hsender. cbn [bind]. rewrite Hparse. cbn [bind]. rewrite Hkey.
  destruct (String.eqb_spec (Creator (create m)) (targetID m)) as [E | _];
    [ contradiction | ].
  rewrite andb_false_r. cbn [andb].
  unfold memberEventAllowed_usual. rewrite Htarget. cbn [bind].
  destruct Hthird as [Hn | Hn].
  - destruct (String.eqb_spec (Membership (newMember m)) "invite");
      [ contradiction | ].
    cbn [andb]. rewrite Hsetup. reflexivity.
  - rewrite Hn, andb_false_r. rewrite Hsetup. reflexivity.
Qed.

(** X25. For a member event that a user other than the creator sends for
    themselves, past the federation check, the rule is the transition
    machine: the event is admitted exactly on the rows of the
    self-transition table, and denied otherwise. *)
Theorem self_member_event_follows_table
        (event : Event) (authEvents : AuthEvents.t) (m : membershipAllower)
        (Htype : Type_ event = "m.room.member")
        (Hsetup : membershipAllower_setup event authEvents = Ok m)
        (Hself : targetID m = senderID m)
        (Hcreator : Creator (create m) <> senderID m)
        (Hsender : createContent.idAllowed (create m) (senderID m) = Ok tt)
        (Hthird : Membership (newMember m) <> "invite" \/
                  memberContent.ThirdPartyInvite (newMember m) = None) :
  let table := selfTransitionTable (Membership (oldMember m))
                 (Membership (newMember m)) (JoinRule (joinRule m)) in
  (admitted (Allowed event authEvents) <-> table) /\
  (~ table -> denied (Allowed event authEvents)).
Proof.
  intros table.
  rewrite (memberEventAllowed_machine_not_creator event authEvents m Htype Hsetup);
    try assumption; try (rewrite Hself; assumption).
  unfold membershipAllowed.
  destruct (String.eqb_spec (targetID m) (senderID m)) as [_ | N]; [ | contradiction ].
  destruct (membershipAllowedSelf_cases m) as [[Ht Hr] | [Ht Hr]];
    fold table in Ht; rewrite Hr.
  - split; [ split; [ auto | reflexivity ] | contradiction ].
  - pose proof (membershipFailed_denied m) as Hd.
    split; [ split; [ | contradiction ] | intros _; exact Hd ].
    intros Ha. destruct (denied_not_admitted _ Hd Ha).
Qed.

Lemma self_member_event_follows_table_witness :
  membershipAllower_setup bob_joins public_room = Ok bob_joining /\
  admitted (Allowed bob_joins public_room).
Proof.
  assert (Hsetup : membershipAllower_setup bob_joins public_room = Ok bob_joining)
    by reflexivity.
  split; [ exact Hsetup | ].
  apply (self_member_event_follows_table bob_joins public_room bob_joining
           eq_refl Hsetup eq_refl).
  - simpl. discriminate.
  - reflexivity.
  - left. simpl. discriminate.
  - left. repeat split.
Defined.

(** X26. When the oracle has no member entry for the sender, no event of a
    type other than create, alias and member is admitted. *)
Theorem sender_without_member_entry_sends_nothing
        (event : Event) (authEvents : AuthEvents.t)
        (Hcreate : Type_ event <> "m.room.create")
        (Halias : Type_ event <> "m.room.alias")
        (Hmember : Type_ event <> "m.room.member")
        (Habsent : AuthEvents.Member authEvents (Sender event) = Ok None) :
  ~ admitted (Allowed event authEvents).
Proof.
  intros Ha. unfold admitted, Allowed in Ha.
  destruct (String.eqb_spec (Type_ event) "m.room.create"); [ contradiction | ].
  destruct (String.eqb_spec (Type_ event) "m.room.alias"); [ contradiction | ].
  destruct (String.eqb_spec (Type_ event) "m.room.member"); [ contradiction | ].
  assert (Hdenied : forall allower,
             eventAllower_setup authEvents (Sender event) = Ok allower ->
             defaultAllowed allower event <> Ok tt).
  { intros allower Hsetup Hd.
    destruct (defaultAllowed_cases allower event) as [[(_ & Hj & _) _] | [_ [err Hr]]];
      [ | rewrite Hr in Hd; discriminate Hd ].
    unfold eventAllower_setup, memberContent.load in Hsetup. rewrite Habsent in Hsetup.
    destruct (createContent.load authEvents) as [c | | ]; cbn [bind] in Hsetup;
      try discriminate Hsetup.
    destruct (powerLevelContent.load authEvents (Creator c)) as [pl | | ];
      cbn [bind] in Hsetup; try discriminate Hsetup.
    injection Hsetup as <-. discriminate Hj. }
  unfold powerLevelEventAllowed, redactEventAllowed, defaultEventAllowed in Ha.
  destruct (eventAllower_setup authEvents (Sender event)) as [allower | | ] eqn:Hsetup;
    [ | repeat match type of Ha with
               | context [if ?b then _ else _] => destruct b
               end; discriminate Ha .. ].
  cbn [bind] in Ha. specialize (Hdenied allower eq_refl).
  destruct (defaultAllowed allower event) as [[] | | ]; [ contradiction | | ];
    repeat match type of Ha with
           | context [if ?b then _ else _] => destruct b
           end; discriminate Ha.
Qed.

Lemma sender_without_member_entry_sends_nothing_witness :
  ~ admitted (Allowed message_event new_room).
Proof.
  apply (sender_without_member_entry_sends_nothing message_event new_room);
    try discriminate.
  reflexivity.
Defined.
